(** * mining-simulation: a shallow embedding of [mining-simulation.cpp]

    The program simulates a block-reward emission that decays towards a floor
    ("tail emission") and a lottery among pools for every block, and reports
    per-pool statistics over many seeded runs.

    Data representation:
    - [BlockReward] ([uint64_t]) is a [Z] in [0, 2^64), every addition and
      subtraction followed by an explicit reduction modulo [2^64];
    - [Height] ([uint_fast32_t]) is a [Z] reduced modulo [2^Height_bits], the
      width being left to the platform (at least 32 in C++);
    - [double] is the kernel's IEEE 754 binary64 type [float];
    - a [Pool*] into the pool vector is an index, [nullptr] is [None];
    - the random source ([std::mt19937] behind a
      [std::uniform_real_distribution]) is standard-library code: it is an
      interface ([Platform]) whose state is threaded explicitly. *)

From Stdlib Require Import ZArith List Lia Bool String Sorted Permutation.
From Stdlib Require Import Reals Lra.
From Stdlib Require Import Floats.
Import ListNotations.

Local Open Scope Z_scope.

(** ** Machine integers *)

Definition wrap (bits z : Z) : Z := z mod 2 ^ bits.

(** [uint64_t] arithmetic result. *)
Definition wrap64 (z : Z) : Z := wrap 64 z.

(** What the C++ standard library and the platform provide. *)
Class Platform : Type := {
  (** width of [uint_fast32_t] *)
  Height_bits : Z;
  (** state of the [std::mt19937] engine *)
  Generator : Type;
  (** [Generator rng(seed)] *)
  seed_rng : Z -> Generator;
  (** [distr_(rng_)] with [distr_ = uniform_real_distribution<>(0.0, 1.0)]:
      the draw and the engine's next state *)
  uniform_real : Generator -> float * Generator
}.

(** [Height] arithmetic result. *)
Definition wrapH `{Platform} (z : Z) : Z := wrap Height_bits z.

(** ** Constants and the reward curve *)

(** [constexpr BlockReward moneySupply = UINT64_MAX;] *)
Definition moneySupply : Z := 18446744073709551615.

(** [constexpr BlockReward tailEmission = 0.6_xmr;] where [x_xmr] is
    [x * 1e12 + 0.5] truncated to [uint64_t]: 600000000000. *)
Definition tailEmission : Z := 600000000000.

(** [return (moneySupply - totalSupply) >> 18;] *)
Definition getBaseReward (totalSupply : Z) : Z :=
  Z.shiftr (wrap64 (moneySupply - totalSupply)) 18.

(** ** Block *)

Module Block.

Record Block : Type := mk {
  minedBy_ : option nat;
  reward_ : Z;
  height_ : Z
}.

(** The default constructor: the virtual block the run loop starts from. *)
Definition default : Block := mk None (getBaseReward 0) 0.

Definition getReward (b : Block) : Z := reward_ b.

End Block.

(** ** Pool *)

Module Pool.

Record Pool : Type := mk {
  name_ : string;
  hashrate_ : float;
  rewards_ : Z;
  blocks_ : Z
}.

(** [Pool(name, hashrate)]: both counters start at 0. *)
Definition new (name : string) (hashrate : float) : Pool :=
  mk name hashrate 0 0.

Definition getHashrate (p : Pool) : float := hashrate_ p.
Definition getBlocks (p : Pool) : Z := blocks_ p.
Definition getRewards (p : Pool) : Z := rewards_ p.

(** [rewards_ += block.getReward(); ++blocks_;] *)
Definition addBlock `{Platform} (b : Block.Block) (p : Pool) : Pool :=
  mk (name_ p) (hashrate_ p)
     (wrap64 (rewards_ p + Block.getReward b))
     (wrapH (blocks_ p + 1)).

End Pool.

(** ** [double] arithmetic

    [StatsSet] only adds, subtracts, multiplies, divides, takes square roots
    and converts a [size_t]. Its code is written once over these operations
    and read twice: over IEEE 754 binary64 (what the program executes) and
    over the real numbers (the arithmetic its formula is meant in). *)

Class Double (D : Type) : Type := {
  d_zero : D;
  d_add : D -> D -> D;
  d_sub : D -> D -> D;
  d_mul : D -> D -> D;
  d_div : D -> D -> D;
  d_sqrt : D -> D;
  (** [size_t] to [double] *)
  d_of_size : nat -> D
}.

(** The machine reading. A vector of doubles holds fewer than [2^63]
    elements, so its size goes through [of_uint63] unchanged. *)
#[export] Instance binary64 : Double float := {|
  d_zero := 0%float;
  d_add := PrimFloat.add;
  d_sub := PrimFloat.sub;
  d_mul := PrimFloat.mul;
  d_div := PrimFloat.div;
  d_sqrt := PrimFloat.sqrt;
  d_of_size := fun n => PrimFloat.of_uint63 (Uint63.of_Z (Z.of_nat n))
|}.

(** The exact reading. *)
#[export] Instance exact : Double R := {|
  d_zero := 0%R;
  d_add := Rplus;
  d_sub := Rminus;
  d_mul := Rmult;
  d_div := Rdiv;
  d_sqrt := R_sqrt.sqrt;
  d_of_size := INR
|}.

(** [uint64_t] (and [Height]) to [double], rounding to nearest: the high
    and the low 32 bits convert exactly, the scaling by [2^32] is exact, and
    the one addition rounds. *)
Definition double_of_uint64 (z : Z) : float :=
  (PrimFloat.of_uint63 (Uint63.of_Z (z / 2 ^ 32)) * 4294967296
   + PrimFloat.of_uint63 (Uint63.of_Z (z mod 2 ^ 32)))%float.

(** [constexpr double xmrUnit = 1e12;] *)
Definition xmrUnit : float := 1e12%float.

(** ** StatsSet *)

Module StatsSet.
Section Over.
Context {D : Type} `{Double D}.

Record StatsSet : Type := mk {
  name_ : string;
  values_ : list D
}.

Definition new (name : string) : StatsSet := mk name [].

(** [values_.push_back(value);] *)
Definition addValue (value : D) (s : StatsSet) : StatsSet :=
  mk (name_ s) (values_ s ++ [value]).

(** [printStats] writes [name: mean +/- stddev]; the model returns the two
    numbers [(mean, stddev)]. *)
Definition printStats (s : StatsSet) : D * D :=
  let size := d_of_size (List.length (values_ s)) in
  let sum := fold_left (fun sum val => d_add sum val) (values_ s) d_zero in
  let mean := d_div sum size in
  let varsum :=
    fold_left
      (fun varsum val => d_add varsum (d_mul (d_sub val mean) (d_sub val mean)))
      (values_ s) d_zero in
  let var := d_div (d_div varsum size) size in
  let stddev := d_sqrt var in
  (mean, stddev).

(** *** The formulas of the specification

    [Sigma f l] is the sum of [f x] over the samples in index order, from
    the zero of the arithmetic. *)
Fixpoint Sigma_upto (f : D -> D) (l : list D) (k : nat) : D :=
  match k with
  | O => d_zero
  | S k' => d_add (Sigma_upto f l k') (f (nth k' l d_zero))
  end.

Definition Sigma (f : D -> D) (l : list D) : D := Sigma_upto f l (List.length l).

(** [mean = (Σ samples) / N] *)
Definition spec_mean (l : list D) : D :=
  d_div (Sigma (fun x => x) l) (d_of_size (List.length l)).

Definition sq_dev (l : list D) (x : D) : D :=
  d_mul (d_sub x (spec_mean l)) (d_sub x (spec_mean l)).

(** [error = sqrt((Σ (sample − mean)²) / N) / N] *)
Definition spec_error (l : list D) : D :=
  d_div (d_sqrt (d_div (Sigma (sq_dev l) l) (d_of_size (List.length l))))
        (d_of_size (List.length l)).

End Over.
Arguments StatsSet D : clear implicits.
End StatsSet.

(** ** PoolStats *)

Module PoolStats.

Record PoolStats : Type := mk {
  name_ : string;
  hashrate_ : float;
  blockCounts_ : StatsSet.StatsSet float;
  blockRewards_ : StatsSet.StatsSet float
}.

Definition new (name : string) (hashrate : float) : PoolStats :=
  mk name hashrate (StatsSet.new "blocks"%string) (StatsSet.new "reward"%string).

Definition getPool (s : PoolStats) : Pool.Pool :=
  Pool.new (name_ s) (hashrate_ s).

(** [blockCounts_.addValue(pool.getBlocks());
     blockRewards_.addValue(pool.getRewards() / xmrUnit);] *)
Definition accumulate (pool : Pool.Pool) (s : PoolStats) : PoolStats :=
  mk (name_ s) (hashrate_ s)
     (StatsSet.addValue (double_of_uint64 (Pool.getBlocks pool)) (blockCounts_ s))
     (StatsSet.addValue
        (double_of_uint64 (Pool.getRewards pool) / xmrUnit)%float
        (blockRewards_ s)).

Definition printStats (s : PoolStats) : (float * float) * (float * float) :=
  (StatsSet.printStats (blockCounts_ s), StatsSet.printStats (blockRewards_ s)).

End PoolStats.

(** ** Network *)

(** [update i f l]: the vector [l] with [f] applied in place to element [i]
    (what a call through a pointer to [l[i]] does). *)
Fixpoint update {A : Type} (i : nat) (f : A -> A) (l : list A) : list A :=
  match l, i with
  | [], _ => []
  | x :: rest, O => f x :: rest
  | x :: rest, S i' => x :: update i' f rest
  end.

Module Network.
Section Net.
Context `{Platform}.

Record Network : Type := mk {
  height_ : Z;
  supply_ : Z;
  pools_ : list Pool.Pool;
  rng_ : Generator
}.

(** [Network(seed, height, supply, pools)] *)
Definition new (seed height supply : Z) (pools : list Pool.Pool) : Network :=
  mk height supply pools (seed_rng seed).

(** [return distr_(rng_);] *)
Definition getDouble (net : Network) : float * Network :=
  let (x, g) := uniform_real (rng_ net) in
  (x, mk (height_ net) (supply_ net) (pools_ net) g).

Definition getBlockReward (net : Network) : Z :=
  let reward := getBaseReward (supply_ net) in
  if reward <? tailEmission then tailEmission else reward.

(** The [for] loop of [mineBlock] over [pools_], from position [i] with
    the probe accumulated so far: the index of the pool it breaks at. *)
Fixpoint select (pools : list Pool.Pool) (i : nat) (pivot probe : float)
  : option nat :=
  match pools with
  | [] => None
  | p :: rest =>
      let probe := (probe + Pool.getHashrate p)%float in
      if (pivot <=? probe)%float then Some i
      else select rest (S i) pivot probe
  end.

Definition mineBlock (net : Network) : Block.Block * Network :=
  let (pivot, net) := getDouble net in
  let pool := select (pools_ net) 0 pivot 0%float in
  let height := wrapH (height_ net + 1) in
  let b := Block.mk pool (getBlockReward net) height in
  let supply := wrap64 (supply_ net + Block.getReward b) in
  let pools :=
    match pool with
    | Some i => update i (Pool.addBlock b) (pools_ net)
    | None => pools_ net
    end in
  (b, mk height supply pools (rng_ net)).

(** [for (Block b; b.getReward() > tailEmission; b = net.mineBlock()) {}]
    run for at most [fuel] iterations from loop variable [b] and network
    [net]. The result is the log of the blocks mined (in order), the loop
    variable and the network. The loop has exited when the resulting
    block's reward is not above [tailEmission]. *)
Fixpoint loop (fuel : nat) (b : Block.Block) (net : Network)
  : list Block.Block * Block.Block * Network :=
  match fuel with
  | O => ([], b, net)
  | S fuel' =>
      if tailEmission <? Block.getReward b then
        let (b', net') := mineBlock net in
        let '(log, bf, netf) := loop fuel' b' net' in
        (b' :: log, bf, netf)
      else ([], b, net)
  end.

(** [k] successive calls of [mineBlock]: the blocks returned, in order,
    and the network after the last call. *)
Fixpoint mineBlocks (k : nat) (net : Network) : list Block.Block * Network :=
  match k with
  | O => ([], net)
  | S k' =>
      let (b, net1) := mineBlock net in
      let (bs, net2) := mineBlocks k' net1 in
      (b :: bs, net2)
  end.

End Net.
End Network.

(** [stats[i].accumulate(pools[i])] for every [i]. *)
Fixpoint accumulate_all (stats : list PoolStats.PoolStats) (pools : list Pool.Pool)
  : list PoolStats.PoolStats :=
  match stats, pools with
  | s :: stats', p :: pools' => PoolStats.accumulate p s :: accumulate_all stats' pools'
  | _, _ => stats
  end.

(** The network a run starts from: fresh pools, the given height and supply,
    the engine seeded. *)
Definition initial `{Platform} (stats : list PoolStats.PoolStats)
  (seed startingHeight startingSupply : Z) : Network.Network :=
  Network.new seed startingHeight startingSupply (map PoolStats.getPool stats).

(** One run. [None]: the loop had not exited after [fuel] iterations. *)
Definition simulateUntilTailEmission `{Platform} (fuel : nat)
  (stats : list PoolStats.PoolStats) (seed startingHeight startingSupply : Z)
  : option (list PoolStats.PoolStats) :=
  let '(_, b, net) :=
    Network.loop fuel Block.default (initial stats seed startingHeight startingSupply) in
  if tailEmission <? Block.getReward b then None
  else Some (accumulate_all stats (Network.pools_ net)).

(** ** Quantities the properties speak of *)

(** The running probe after [k] more pools, from a probe already
    accumulated. *)
Definition probe_from (probe : float) (pools : list Pool.Pool) (k : nat) : float :=
  fold_left (fun probe p => (probe + Pool.getHashrate p)%float) (firstn k pools) probe.

(** The running probe after the first [k] pools have been added. *)
Definition probe_after (pools : list Pool.Pool) (k : nat) : float :=
  probe_from 0%float pools k.

(** Total reward carried by a list of blocks. *)
Definition minted (log : list Block.Block) : Z :=
  fold_right (fun b acc => Block.getReward b + acc) 0 log.

(** Total reward of the blocks of a list that went to a tracked pool. *)
Definition awarded (log : list Block.Block) : Z :=
  fold_right
    (fun b acc => match Block.minedBy_ b with
                  | Some _ => Block.getReward b + acc
                  | None => acc
                  end) 0 log.

(** Sum over the pools of their accrued reward. *)
Definition accrued (pools : list Pool.Pool) : Z :=
  fold_right (fun p acc => Pool.getRewards p + acc) 0 pools.

(** Every block of the log went to a tracked pool. *)
Definition no_residual (log : list Block.Block) : bool :=
  forallb (fun b => match Block.minedBy_ b with Some _ => true | None => false end) log.

(** A [BlockReward] value. *)
Definition is_uint64 (z : Z) : Prop := 0 <= z <= moneySupply.

(** No pool holds a negative reward. *)
Definition nonneg_rewards (pools : list Pool.Pool) : Prop :=
  Forall (fun p => 0 <= Pool.getRewards p) pools.

(** Pool [i] won block [b]. *)
Definition won_by (i : nat) (b : Block.Block) : bool :=
  match Block.minedBy_ b with
  | Some w => Nat.eqb w i
  | None => false
  end.

(** Total reward, and number, of the blocks of a log won by pool [i]. *)
Definition rewards_of (i : nat) (log : list Block.Block) : Z :=
  minted (filter (won_by i) log).

Definition blocks_of (i : nat) (log : list Block.Block) : Z :=
  Z.of_nat (List.length (filter (won_by i) log)).

(** The engine after [k] draws. *)
Fixpoint draws `{Platform} (k : nat) (g : Generator) : Generator :=
  match k with
  | O => g
  | S k' => draws k' (snd (uniform_real g))
  end.

(** The loop of [main] over the seeds,
    [for (seed ...) simulateUntilTailEmission(pools, seed, startingHeight, startingSupply);],
    with the seeds, the starting height and the starting supply as
    parameters. [None]: some run had not exited after [fuel] iterations. *)
Fixpoint main_loop `{Platform} (fuel : nat) (stats : list PoolStats.PoolStats)
  (seeds : list Z) (startingHeight startingSupply : Z)
  : option (list PoolStats.PoolStats) :=
  match seeds with
  | [] => Some stats
  | seed :: seeds' =>
      match simulateUntilTailEmission fuel stats seed startingHeight startingSupply with
      | Some stats' => main_loop fuel stats' seeds' startingHeight startingSupply
      | None => None
      end
  end.

(** The sum of a list of reals. *)
Definition Rsum (l : list R) : R := fold_right Rplus 0%R l.

(** ** A concrete platform for examples

    [Height] of 64 bits (LP64), and an engine that replays a given script
    of draws, then draws 0. *)
Definition scripted (script : list float) : Platform := {|
  Height_bits := 64;
  Generator := list float;
  seed_rng := fun _ => script;
  uniform_real := fun g => (hd 0%float g, tl g)
|}.

(** Draws 0.25, 0.3125, 0.75, then 0. *)
Definition example_platform : Platform := scripted [0.25; 0.3125; 0.75]%float.

(** Two tracked pools, of hash-power shares 0.25 and 0.125. *)
Definition example_stats : list PoolStats.PoolStats :=
  [PoolStats.new "A" 0.25; PoolStats.new "B" 0.125].

(** A supply at which the base reward is [tailEmission + 3000000]: the run
    from it mines three blocks. *)
Definition example_supply : Z := moneySupply - (tailEmission + 3000000) * 262144.

Definition example_net : @Network.Network example_platform :=
  initial example_stats 1 2082536 example_supply.

(** The same pools at a supply one unit below the ceiling. *)
Definition ceiling_net : @Network.Network example_platform :=
  initial example_stats 1 2082536 (moneySupply - 1).

(** A chain state at the largest height of the example platform. *)
Definition top_height_net : @Network.Network example_platform :=
  initial example_stats 1 (2 ^ 64 - 1) example_supply.

(** Four samples, all exactly representable. *)
Definition example_samples : StatsSet.StatsSet float :=
  StatsSet.mk "blocks" [1; 3; 1; 3]%float.

Definition example_real_samples : StatsSet.StatsSet R :=
  StatsSet.mk "blocks" [1; 3; 1; 3]%R.

(** A second platform: 32-bit [Height], other draws. *)
Definition other_platform : Platform := {|
  Height_bits := 32;
  Generator := list float;
  seed_rng := fun _ => [0.875; 0.0625]%float;
  uniform_real := fun g => (hd 0.5%float g, tl g)
|}.

(** A single pool holding the whole hash power. *)
Definition solo_net : @Network.Network example_platform :=
  initial [PoolStats.new "A" 1] 1 2082536 example_supply.

(** Three samples whose sum in binary64 depends on their order. *)
Definition big_first : StatsSet.StatsSet float :=
  StatsSet.mk "reward" [9007199254740992; 1; 1]%float.

Definition big_last : StatsSet.StatsSet float :=
  StatsSet.mk "reward" [1; 1; 9007199254740992]%float.

(** * Properties *)

Import Network.

(** ** The reward curve *)

Lemma moneySupply_eq : moneySupply = 2 ^ 64 - 1.
Proof. reflexivity. Qed.

Lemma wrap64_small (z : Z) : 0 <= z <= moneySupply -> wrap64 z = z.
Proof.
  intros Hz. unfold wrap64, wrap. apply Z.mod_small.
  rewrite moneySupply_eq in Hz. lia.
Qed.

Lemma getBaseReward_exact (s : Z) :
  is_uint64 s -> getBaseReward s = (moneySupply - s) / 2 ^ 18.
Proof.
  intros [Hlo Hhi]. unfold getBaseReward.
  rewrite wrap64_small by lia.
  apply Z.shiftr_div_pow2. lia.
Qed.

Lemma getBaseReward_bounds (s : Z) :
  is_uint64 s -> 0 <= getBaseReward s <= moneySupply - s.
Proof.
  intros Hs. rewrite getBaseReward_exact by exact Hs.
  destruct Hs as [Hlo Hhi]. split.
  - apply Z.div_pos; lia.
  - apply Z.div_le_upper_bound; [lia|].
    change (2 ^ 18) with 262144. lia.
Qed.

Lemma getBlockReward_max `{Platform} (net : Network) :
  getBlockReward net = Z.max (getBaseReward (supply_ net)) tailEmission.
Proof.
  unfold getBlockReward.
  destruct (Z.ltb_spec (getBaseReward (supply_ net)) tailEmission); lia.
Qed.

Lemma getBlockReward_floor `{Platform} (net : Network) :
  tailEmission <= getBlockReward net.
Proof. rewrite getBlockReward_max. lia. Qed.

(** C2. For a cumulative supply [S] with [0 <= S < moneySupply] the block
    reward is [max ((moneySupply - S) >> 18, tailEmission)], the shift being
    the truncating division by [2^18] of the plain difference; the reward is
    at least [tailEmission], and it does not increase when the supply grows. *)
Theorem getBlockReward_curve `{Platform} (net : Network)
  (HS : 0 <= supply_ net < moneySupply) :
  getBlockReward net
    = Z.max (Z.shiftr (moneySupply - supply_ net) 18) tailEmission
  /\ Z.shiftr (moneySupply - supply_ net) 18 = (moneySupply - supply_ net) / 2 ^ 18
  /\ tailEmission <= getBlockReward net
  /\ (forall net' : Network,
        supply_ net <= supply_ net' < moneySupply ->
        getBlockReward net' <= getBlockReward net).
Proof.
  assert (Hsh : forall s, 0 <= s < moneySupply ->
                 Z.shiftr (moneySupply - s) 18 = (moneySupply - s) / 2 ^ 18).
  { intros s Hs. apply Z.shiftr_div_pow2. lia. }
  repeat split.
  - rewrite getBlockReward_max, getBaseReward_exact by (unfold is_uint64; lia).
    rewrite Hsh by exact HS. reflexivity.
  - apply Hsh, HS.
  - apply getBlockReward_floor.
  - intros net' HS'.
    rewrite !getBlockReward_max.
    rewrite !getBaseReward_exact by (unfold is_uint64; lia).
    apply Z.max_le_compat_r.
    apply Z.div_le_mono; lia.
Qed.

(** C10. [getBaseReward] is defined on every [uint64_t] supply: the
    subtraction from [moneySupply] never wraps, so the result is the plain
    quotient; at [moneySupply] it is 0, and [getBlockReward] is then exactly
    [tailEmission]. *)
Theorem getBaseReward_total (s : Z) (Hs : is_uint64 s) :
  0 <= moneySupply - s
  /\ wrap64 (moneySupply - s) = moneySupply - s
  /\ getBaseReward s = (moneySupply - s) / 2 ^ 18
  /\ is_uint64 (getBaseReward s)
  /\ getBaseReward moneySupply = 0
  /\ (forall (P : Platform) (net : Network),
        supply_ net = moneySupply -> getBlockReward net = tailEmission).
Proof.
  pose proof (getBaseReward_bounds s Hs) as Hb.
  destruct Hs as [Hlo Hhi].
  repeat split; try lia.
  - apply wrap64_small. lia.
  - apply getBaseReward_exact. split; lia.
  - intros P net Heq. unfold getBlockReward. rewrite Heq. reflexivity.
Qed.

(** ** One call of [mineBlock] *)

Lemma mineBlock_eq `{Platform} (net : Network) :
  mineBlock net =
    let pivot := fst (uniform_real (rng_ net)) in
    let pool := select (pools_ net) 0 pivot 0%float in
    let b := Block.mk pool (getBlockReward net) (wrapH (height_ net + 1)) in
    (b,
     mk (wrapH (height_ net + 1))
        (wrap64 (supply_ net + getBlockReward net))
        (match pool with
         | Some i => update i (Pool.addBlock b) (pools_ net)
         | None => pools_ net
         end)
        (snd (uniform_real (rng_ net)))).
Proof.
  unfold mineBlock, getDouble.
  destruct (uniform_real (rng_ net)) as [pivot g]. reflexivity.
Qed.

(** C3, as amended. From a chain state whose height is below the largest
    [Height] and whose supply [S] has [S + tailEmission <= moneySupply], one
    call of [mineBlock] raises the height by exactly 1 and the supply by
    exactly the reward of the returned block, and that reward is the block
    reward at the supply before the call. *)
Theorem mineBlock_advance `{Platform} (net : Network)
  (Hh : 0 <= height_ net < 2 ^ Height_bits - 1)
  (Hs : 0 <= supply_ net <= moneySupply - tailEmission) :
  let '(b, net') := mineBlock net in
  height_ net' = height_ net + 1
  /\ Block.height_ b = height_ net + 1
  /\ Block.getReward b = getBlockReward net
  /\ supply_ net' = supply_ net + Block.getReward b
  /\ supply_ net < supply_ net'.
Proof.
  rewrite mineBlock_eq. cbn -[getBlockReward wrapH wrap64 Z.add].
  assert (Hw : wrapH (height_ net + 1) = height_ net + 1).
  { unfold wrapH, wrap. apply Z.mod_small. lia. }
  pose proof (getBlockReward_floor net) as Hfl.
  assert (Hr : getBlockReward net <= moneySupply - supply_ net).
  { rewrite getBlockReward_max.
    pose proof (getBaseReward_bounds (supply_ net)) as Hb.
    unfold is_uint64 in Hb. unfold tailEmission in *. lia. }
  rewrite Hw, wrap64_small by (unfold tailEmission in *; lia).
  unfold tailEmission in *. repeat split; lia.
Qed.

(** *** The lottery *)

Lemma probe_from_cons (probe : float) (p : Pool.Pool) (rest : list Pool.Pool) (k : nat) :
  probe_from probe (p :: rest) (S k)
  = probe_from (probe + Pool.getHashrate p)%float rest k.
Proof. reflexivity. Qed.

Lemma select_first `{Platform} (pools : list Pool.Pool) :
  forall (i : nat) (pivot probe : float),
    match select pools i pivot probe with
    | Some w =>
        exists k : nat,
          w = (i + k)%nat /\ (k < List.length pools)%nat
          /\ (pivot <=? probe_from probe pools (S k))%float = true
          /\ (forall j : nat, (j < k)%nat ->
                (pivot <=? probe_from probe pools (S j))%float = false)
    | None =>
        forall j : nat, (j < List.length pools)%nat ->
          (pivot <=? probe_from probe pools (S j))%float = false
    end.
Proof.
  induction pools as [|p rest IH]; intros i pivot probe; simpl.
  - intros j Hj. lia.
  - destruct (pivot <=? probe + Pool.getHashrate p)%float eqn:Hcmp.
    + exists 0%nat. repeat split; try lia. exact Hcmp.
    + specialize (IH (S i) pivot (probe + Pool.getHashrate p)%float).
      destruct (select rest (S i) pivot (probe + Pool.getHashrate p)%float) as [w|].
      * destruct IH as (k & Hw & Hk & Hhit & Hmiss).
        exists (S k). repeat split; try lia.
        -- rewrite probe_from_cons. exact Hhit.
        -- intros [|j] Hj; [exact Hcmp|].
           rewrite probe_from_cons. apply Hmiss. lia.
      * intros [|j] Hj; [exact Hcmp|].
        rewrite probe_from_cons. apply IH. lia.
Qed.

(** IEEE comparison: [a == b] implies [b <= a]. *)
Lemma SFeqb_SFleb (a b : SpecFloat.spec_float) :
  SpecFloat.SFeqb a b = true -> SpecFloat.SFleb b a = true.
Proof.
  unfold SpecFloat.SFeqb, SpecFloat.SFleb.
  destruct a as [sa|sa| |sa ma ea], b as [sb|sb| |sb mb eb]; simpl;
    try discriminate; try reflexivity;
    try (destruct sa; discriminate); try (destruct sb; discriminate).
  - destruct sa, sb; simpl; intros; try discriminate; reflexivity.
  - destruct sa, sb; try discriminate;
      destruct (Z.compare_spec ea eb) as [He|He|He]; try discriminate;
      subst eb; rewrite Z.compare_refl;
      change (Pos.compare_cont Eq ma mb) with (Pos.compare ma mb);
      change (Pos.compare_cont Eq mb ma) with (Pos.compare mb ma);
      destruct (Pos.compare_spec ma mb) as [Hm|Hm|Hm]; try discriminate;
      subst mb; rewrite Pos.compare_refl; reflexivity.
Qed.

Lemma float_eqb_leb (x y : float) :
  (x =? y)%float = true -> (y <=? x)%float = true.
Proof.
  rewrite FloatAxioms.eqb_spec, FloatAxioms.leb_spec. apply SFeqb_SFleb.
Qed.

Lemma update_nth_error {A : Type} (f : A -> A) (l : list A) :
  forall i j : nat,
    nth_error (update i f l) j
    = if Nat.eqb j i then option_map f (nth_error l i) else nth_error l j.
Proof.
  induction l as [|x rest IH]; intros i j.
  - simpl. destruct (Nat.eqb j i); destruct i, j; reflexivity.
  - destruct i as [|i], j as [|j]; simpl; try reflexivity. apply IH.
Qed.

(** C4. The pool [mineBlock] awards the block to is the first one, in the
    order of the pool vector, at which the running probe reaches the pivot
    ([probe >= pivot]); a probe equal to the pivot counts as reaching it, so
    the pool being evaluated wins; when no probe reaches the pivot the block
    has no winner and the pool vector is left as it was; otherwise exactly
    the winner's entry is updated. This holds for every draw, in particular
    for every pivot in [0,1). *)
Theorem mineBlock_winner `{Platform} (net : Network) :
  let pivot := fst (uniform_real (rng_ net)) in
  let pools := pools_ net in
  let reached := fun k : nat => (pivot <=? probe_after pools (S k))%float in
  let '(b, net') := mineBlock net in
  (forall i : nat,
      Block.minedBy_ b = Some i <->
      (i < List.length pools)%nat /\ reached i = true
      /\ (forall j : nat, (j < i)%nat -> reached j = false))
  /\ (forall i : nat,
        (i < List.length pools)%nat ->
        (probe_after pools (S i) =? pivot)%float = true ->
        (forall j : nat, (j < i)%nat -> reached j = false) ->
        Block.minedBy_ b = Some i)
  /\ (Block.minedBy_ b = None <->
      (forall j : nat, (j < List.length pools)%nat -> reached j = false))
  /\ (Block.minedBy_ b = None -> pools_ net' = pools_ net)
  /\ (forall i : nat,
        Block.minedBy_ b = Some i ->
        forall j : nat,
          nth_error (pools_ net') j
          = if Nat.eqb j i then option_map (Pool.addBlock b) (nth_error pools i)
            else nth_error pools j).
Proof.
  rewrite mineBlock_eq. cbv zeta.
  set (pivot := fst (uniform_real (rng_ net))).
  set (pools := pools_ net).
  pose proof (select_first pools 0 pivot 0%float) as Hsel.
  unfold probe_after.
  destruct (select pools 0 pivot 0%float) as [w|] eqn:Hw; cbn [Block.minedBy_ pools_].
  - destruct Hsel as (k & Hwk & Hk & Hhit & Hmiss). simpl in Hwk. subst w.
    assert (Huniq : forall i : nat,
               (i < List.length pools)%nat ->
               (pivot <=? probe_from 0 pools (S i))%float = true ->
               (forall j : nat, (j < i)%nat ->
                  (pivot <=? probe_from 0 pools (S j))%float = false) ->
               k = i).
    { intros i Hi Hri Hbefore.
      destruct (Nat.lt_trichotomy k i) as [Hlt|[Heq|Hgt]]; [|exact Heq|].
      - rewrite (Hbefore k Hlt) in Hhit. discriminate.
      - rewrite (Hmiss i Hgt) in Hri. discriminate. }
    split; [|split; [|split; [|split]]].
    + intros i. split.
      * intros Heq. injection Heq as <-. auto.
      * intros (Hi & Hri & Hbefore). f_equal. apply Huniq; assumption.
    + intros i Hi Htie Hbefore. f_equal.
      apply Huniq; try assumption. apply float_eqb_leb. exact Htie.
    + split; [discriminate|].
      intros Hall. rewrite (Hall k Hk) in Hhit. discriminate.
    + discriminate.
    + intros i Heq j. injection Heq as <-. apply update_nth_error.
  - split; [|split; [|split; [|split]]].
    + intros i. split; [discriminate|].
      intros (Hi & Hri & _). rewrite (Hsel i Hi) in Hri. discriminate.
    + intros i Hi Htie _. apply float_eqb_leb in Htie.
      rewrite (Hsel i Hi) in Htie. discriminate.
    + split; [intros _; exact Hsel|reflexivity].
    + reflexivity.
    + discriminate.
Qed.

(** ** The run loop *)

Section Run.
Context `{Platform}.

Lemma loop_exited (fuel : nat) (b : Block.Block) (net : Network) :
  Block.getReward b <= tailEmission -> loop fuel b net = ([], b, net).
Proof.
  intros Hb. destruct fuel as [|fuel]; simpl; [reflexivity|].
  destruct (Z.ltb_spec tailEmission (Block.getReward b)); [lia|reflexivity].
Qed.

Lemma loop_step (fuel : nat) (b : Block.Block) (net : Network) :
  tailEmission < Block.getReward b ->
  loop (S fuel) b net =
    let '(log, bf, netf) := loop fuel (fst (mineBlock net)) (snd (mineBlock net)) in
    (fst (mineBlock net) :: log, bf, netf).
Proof.
  intros Hb. simpl.
  destruct (Z.ltb_spec tailEmission (Block.getReward b)); [|lia].
  destruct (mineBlock net) as [b' net']. reflexivity.
Qed.

Lemma mineBlock_reward (net : Network) :
  Block.getReward (fst (mineBlock net)) = getBlockReward net.
Proof. rewrite mineBlock_eq. reflexivity. Qed.

Lemma mineBlock_supply (net : Network) :
  supply_ (snd (mineBlock net)) = wrap64 (supply_ net + getBlockReward net).
Proof. rewrite mineBlock_eq. reflexivity. Qed.

(** The log is what successive calls of [mineBlock] return. *)
Lemma loop_mineBlocks (fuel : nat) :
  forall (b : Block.Block) (net : Network),
    let '(log, _, netf) := loop fuel b net in
    mineBlocks (List.length log) net = (log, netf).
Proof.
  induction fuel as [|fuel IH]; intros b net; [reflexivity|].
  destruct (Z.le_gt_cases (Block.getReward b) tailEmission) as [Hb|Hb].
  - rewrite loop_exited by exact Hb. reflexivity.
  - rewrite loop_step by lia.
    specialize (IH (fst (mineBlock net)) (snd (mineBlock net))).
    destruct (loop fuel (fst (mineBlock net)) (snd (mineBlock net)))
      as [[log bf] netf].
    simpl. destruct (mineBlock net) as [b' net']. simpl in IH |- *.
    rewrite IH. reflexivity.
Qed.

(** The loop variable is the last block mined (the starting one when
    none was), and every block before it passed the check. *)
Lemma loop_last (fuel : nat) :
  forall (b : Block.Block) (net : Network),
    let '(log, bf, _) := loop fuel b net in
    exists passed : list Block.Block,
      b :: log = passed ++ [bf]
      /\ Forall (fun x => tailEmission < Block.getReward x) passed.
Proof.
  induction fuel as [|fuel IH]; intros b net.
  - exists []. split; [reflexivity|constructor].
  - destruct (Z.le_gt_cases (Block.getReward b) tailEmission) as [Hb|Hb].
    + rewrite loop_exited by exact Hb.
      exists []. split; [reflexivity|constructor].
    + rewrite loop_step by lia.
      specialize (IH (fst (mineBlock net)) (snd (mineBlock net))).
      destruct (loop fuel (fst (mineBlock net)) (snd (mineBlock net)))
        as [[log bf] netf].
      destruct IH as (passed & Heq & Hall).
      exists (b :: passed). split.
      * simpl. rewrite Heq. reflexivity.
      * constructor; [lia|exact Hall].
Qed.

(** Every mined block carries at least the floor. *)
Lemma loop_rewards (fuel : nat) :
  forall (b : Block.Block) (net : Network),
    let '(log, _, _) := loop fuel b net in
    Forall (fun x => tailEmission <= Block.getReward x) log.
Proof.
  induction fuel as [|fuel IH]; intros b net; [constructor|].
  destruct (Z.le_gt_cases (Block.getReward b) tailEmission) as [Hb|Hb].
  - rewrite loop_exited by exact Hb. constructor.
  - rewrite loop_step by lia.
    specialize (IH (fst (mineBlock net)) (snd (mineBlock net))).
    destruct (loop fuel (fst (mineBlock net)) (snd (mineBlock net)))
      as [[log bf] netf].
    constructor; [|exact IH].
    rewrite mineBlock_reward. apply getBlockReward_floor.
Qed.

(** Once the loop has exited, more fuel changes nothing. *)
Lemma loop_stable (fuel : nat) :
  forall (b : Block.Block) (net : Network) (extra : nat),
    Block.getReward (snd (fst (loop fuel b net))) <= tailEmission ->
    loop (fuel + extra) b net = loop fuel b net.
Proof.
  induction fuel as [|fuel IH]; intros b net extra Hexit.
  - simpl in Hexit. simpl. apply loop_exited. exact Hexit.
  - destruct (Z.le_gt_cases (Block.getReward b) tailEmission) as [Hb|Hb].
    + rewrite !loop_exited by exact Hb. reflexivity.
    + change (S fuel + extra)%nat with (S (fuel + extra)).
      rewrite loop_step in Hexit by lia. rewrite !loop_step by lia.
      specialize (IH (fst (mineBlock net)) (snd (mineBlock net)) extra).
      destruct (loop fuel (fst (mineBlock net)) (snd (mineBlock net)))
        as [[log bf] netf].
      rewrite IH by exact Hexit. reflexivity.
Qed.

End Run.

(** *** Arithmetic of the curve along a run *)

Lemma base_above_floor_room (s : Z) :
  is_uint64 s -> tailEmission < getBaseReward s ->
  s + getBaseReward s + tailEmission <= moneySupply.
Proof.
  intros Hs. rewrite getBaseReward_exact by exact Hs.
  destruct Hs as [Hlo Hhi]. change (2 ^ 18) with 262144.
  pose proof (Z.mul_div_le (moneySupply - s) 262144 ltac:(lia)) as Hq.
  unfold tailEmission. intros Hgt. lia.
Qed.

Lemma minted_nil : minted [] = 0.
Proof. reflexivity. Qed.

Lemma minted_cons (b : Block.Block) (log : list Block.Block) :
  minted (b :: log) = Block.getReward b + minted log.
Proof. reflexivity. Qed.

Section RunArith.
Context `{Platform}.

(** When the supply leaves room for the floor, the addition of the block
    reward is exact; and when the mined reward is above the floor, the new
    supply leaves room for the floor again. *)
Lemma mineBlock_room (net : Network) :
  0 <= supply_ net <= moneySupply - tailEmission ->
  supply_ (snd (mineBlock net)) = supply_ net + getBlockReward net
  /\ supply_ (snd (mineBlock net)) <= moneySupply
  /\ (tailEmission < getBlockReward net ->
      supply_ (snd (mineBlock net)) <= moneySupply - tailEmission).
Proof.
  intros Hs. rewrite mineBlock_supply.
  assert (Hu : is_uint64 (supply_ net))
    by (unfold is_uint64, tailEmission in *; lia).
  pose proof (getBaseReward_bounds _ Hu) as Hb.
  pose proof (base_above_floor_room _ Hu) as Hroom.
  rewrite getBlockReward_max in *.
  rewrite wrap64_small by (unfold tailEmission in *; lia).
  unfold tailEmission in *. repeat split; lia.
Qed.

(** From a supply with room for the floor, the supply is the starting
    supply plus the plain sum of the rewards mined. *)
Lemma loop_supply_exact (fuel : nat) :
  forall (b : Block.Block) (net : Network),
    0 <= supply_ net <= moneySupply ->
    (tailEmission < Block.getReward b ->
     supply_ net <= moneySupply - tailEmission) ->
    let '(log, bf, netf) := loop fuel b net in
    supply_ netf = supply_ net + minted log
    /\ supply_ netf <= moneySupply
    /\ (tailEmission < Block.getReward bf ->
        supply_ netf <= moneySupply - tailEmission).
Proof.
  induction fuel as [|fuel IH]; intros b net Hs Hroom.
  - cbn [loop]; cbv beta iota; rewrite ?minted_cons, ?minted_nil. repeat split; first [lia | assumption].
  - destruct (Z.le_gt_cases (Block.getReward b) tailEmission) as [Hb|Hb].
    + rewrite loop_exited by exact Hb. cbv beta iota; rewrite ?minted_cons, ?minted_nil.
      repeat split; first [lia | assumption].
    + rewrite loop_step by lia.
      destruct (mineBlock_room net) as (Hex & Hle & Hnext); [lia|].
      pose proof (getBlockReward_floor net) as Hfl.
      specialize (IH (fst (mineBlock net)) (snd (mineBlock net))).
      rewrite mineBlock_reward in IH.
      destruct (loop fuel (fst (mineBlock net)) (snd (mineBlock net)))
        as [[log bf] netf].
      destruct IH as (Hsum & Hmax & Hrm);
        [unfold tailEmission in *; lia | exact Hnext |].
      cbv beta iota; rewrite ?minted_cons, ?minted_nil. rewrite mineBlock_reward.
      repeat split; first [lia | assumption].
Qed.

(** The rewards mined in a run add up to at most [moneySupply]. *)
Lemma loop_minted_bound (fuel : nat) :
  forall (b : Block.Block) (net : Network),
    is_uint64 (supply_ net) ->
    let '(log, _, _) := loop fuel b net in
    minted log <= Z.max (moneySupply - supply_ net) tailEmission.
Proof.
  induction fuel as [|fuel IH]; intros b net Hs.
  - cbn [loop]; cbv beta iota; rewrite ?minted_cons, ?minted_nil. unfold is_uint64, tailEmission in *. lia.
  - destruct (Z.le_gt_cases (Block.getReward b) tailEmission) as [Hb|Hb].
    + rewrite loop_exited by exact Hb. cbv beta iota; rewrite ?minted_cons, ?minted_nil.
      unfold is_uint64, tailEmission in *. lia.
    + rewrite loop_step by lia.
      pose proof (getBlockReward_max net) as Hmax.
      pose proof (getBaseReward_bounds _ Hs) as Hbase.
      pose proof (base_above_floor_room _ Hs) as Hroom.
      destruct (Z.le_gt_cases (getBlockReward net) tailEmission) as [Hr|Hr].
      * rewrite (loop_exited fuel) by (rewrite mineBlock_reward; exact Hr).
        cbv beta iota; rewrite ?minted_cons, ?minted_nil. rewrite mineBlock_reward.
        unfold is_uint64, tailEmission in *. lia.
      * specialize (IH (fst (mineBlock net)) (snd (mineBlock net))).
        pose proof (mineBlock_supply net) as Hsup.
        rewrite wrap64_small in Hsup
          by (unfold is_uint64, tailEmission in *; lia).
        destruct (loop fuel (fst (mineBlock net)) (snd (mineBlock net)))
          as [[log bf] netf].
        cbv beta iota; rewrite ?minted_cons, ?minted_nil. rewrite mineBlock_reward.
        assert (Hu : is_uint64 (supply_ (snd (mineBlock net))))
          by (unfold is_uint64, tailEmission in *; lia).
        specialize (IH Hu). unfold is_uint64, tailEmission in *. lia.
Qed.

(** Fuel that outweighs the distance to the ceiling, counted in floor
    rewards, lets the loop exit. *)
Lemma loop_exits (fuel : nat) :
  forall (b : Block.Block) (net : Network),
    is_uint64 (supply_ net) ->
    moneySupply - supply_ net < Z.of_nat fuel * (tailEmission + 1) ->
    Block.getReward (snd (fst (loop fuel b net))) <= tailEmission.
Proof.
  induction fuel as [|fuel IH]; intros b net Hs Hfuel.
  - unfold is_uint64, tailEmission in *. lia.
  - destruct (Z.le_gt_cases (Block.getReward b) tailEmission) as [Hb|Hb].
    + rewrite loop_exited by exact Hb. exact Hb.
    + rewrite loop_step by lia.
      pose proof (getBlockReward_max net) as Hmax.
      pose proof (getBaseReward_bounds _ Hs) as Hbase.
      destruct (Z.le_gt_cases (getBlockReward net) tailEmission) as [Hr|Hr].
      * rewrite (loop_exited fuel) by (rewrite mineBlock_reward; exact Hr).
        cbn [fst snd]. rewrite mineBlock_reward. exact Hr.
      * specialize (IH (fst (mineBlock net)) (snd (mineBlock net))).
        pose proof (mineBlock_supply net) as Hsup.
        rewrite wrap64_small in Hsup
          by (unfold is_uint64, tailEmission in *; lia).
        destruct (loop fuel (fst (mineBlock net)) (snd (mineBlock net)))
          as [[log bf] netf] eqn:Hloop.
        cbn [fst snd] in IH |- *. apply IH.
        -- unfold is_uint64, tailEmission in *. lia.
        -- unfold is_uint64, tailEmission in *. lia.
Qed.

End RunArith.

(** *** The pools' ledgers along a run *)

Lemma accrued_cons (p : Pool.Pool) (pools : list Pool.Pool) :
  accrued (p :: pools) = Pool.getRewards p + accrued pools.
Proof. reflexivity. Qed.

Lemma accrued_nonneg (pools : list Pool.Pool) :
  nonneg_rewards pools -> 0 <= accrued pools.
Proof.
  induction 1 as [|p pools Hp _ IH]; [reflexivity|].
  rewrite accrued_cons. lia.
Qed.

Lemma accrued_fresh (stats : list PoolStats.PoolStats) :
  accrued (map PoolStats.getPool stats) = 0
  /\ nonneg_rewards (map PoolStats.getPool stats).
Proof.
  induction stats as [|s stats [IHa IHn]]; split; try reflexivity.
  - constructor.
  - simpl map. rewrite accrued_cons, IHa. reflexivity.
  - constructor; [simpl; lia|exact IHn].
Qed.

Lemma awarded_cons (b : Block.Block) (log : list Block.Block) :
  awarded (b :: log)
  = match Block.minedBy_ b with
    | Some _ => Block.getReward b + awarded log
    | None => awarded log
    end.
Proof. reflexivity. Qed.

(** With positive rewards, what went to tracked pools is at most what was
    minted, and equal exactly when no block went to the residual share. *)
Lemma awarded_minted (log : list Block.Block) :
  Forall (fun x => tailEmission <= Block.getReward x) log ->
  0 <= awarded log <= minted log
  /\ (awarded log = minted log <-> no_residual log = true).
Proof.
  induction 1 as [|b log Hb _ [IHle IHeq]].
  - split; [split; reflexivity|]. split; reflexivity.
  - rewrite awarded_cons, minted_cons. cbn [no_residual forallb].
    fold (no_residual log). unfold tailEmission in Hb.
    destruct (Block.minedBy_ b) as [w|]; cbn [andb].
    + split; [lia|]. rewrite <- IHeq. lia.
    + split; [lia|]. split; [lia|discriminate].
Qed.

Section RunLedger.
Context `{Platform}.

Lemma select_in_range (pools : list Pool.Pool) (pivot : float) (w : nat) :
  select pools 0 pivot 0%float = Some w -> (w < List.length pools)%nat.
Proof.
  intros Hw. pose proof (select_first pools 0 pivot 0%float) as Hsel.
  rewrite Hw in Hsel. destruct Hsel as (k & -> & Hk & _). exact Hk.
Qed.

(** Awarding a block to pool [i] adds its reward to the pools' total, as
    long as the total stays a [uint64_t] value. *)
Lemma accrued_update (b : Block.Block) (pools : list Pool.Pool) :
  forall i : nat,
    (i < List.length pools)%nat ->
    nonneg_rewards pools ->
    0 <= Block.getReward b ->
    accrued pools + Block.getReward b <= moneySupply ->
    accrued (update i (Pool.addBlock b) pools) = accrued pools + Block.getReward b
    /\ nonneg_rewards (update i (Pool.addBlock b) pools).
Proof.
  induction pools as [|p rest IH]; intros i Hi Hnn Hr Hsum.
  - simpl in Hi. lia.
  - inversion Hnn as [|p' rest' Hp Hrest]; subst.
    pose proof (accrued_nonneg rest Hrest) as Hrest0.
    rewrite accrued_cons in Hsum.
    destruct i as [|i]; cbn [update].
    + rewrite !accrued_cons. unfold Pool.addBlock at 1.
      cbn [Pool.getRewards Pool.rewards_].
      unfold Pool.getRewards in *.
      rewrite wrap64_small by lia. split; [lia|].
      constructor; [|exact Hrest].
      unfold Pool.addBlock, Pool.getRewards. cbn [Pool.rewards_].
      rewrite wrap64_small by lia. lia.
    + destruct (IH i) as [IHa IHn]; try assumption.
      * simpl in Hi. lia.
      * unfold Pool.getRewards in *. lia.
      * rewrite !accrued_cons, IHa. split; [lia|].
        constructor; assumption.
Qed.

Lemma mineBlock_accrued (net : Network) :
  nonneg_rewards (pools_ net) ->
  accrued (pools_ net) + getBlockReward net <= moneySupply ->
  accrued (pools_ (snd (mineBlock net)))
  = accrued (pools_ net) + awarded [fst (mineBlock net)]
  /\ nonneg_rewards (pools_ (snd (mineBlock net))).
Proof.
  intros Hnn Hsum. pose proof (getBlockReward_floor net) as Hfl.
  rewrite mineBlock_eq. cbv zeta. cbn [fst snd pools_].
  rewrite awarded_cons. cbn [Block.minedBy_ Block.getReward Block.reward_].
  change (awarded []) with 0.
  destruct (select (pools_ net) 0 (fst (uniform_real (rng_ net))) 0%float)
    as [w|] eqn:Hw.
  - apply select_in_range in Hw.
    destruct (accrued_update
                (Block.mk (Some w) (getBlockReward net) (wrapH (height_ net + 1)))
                (pools_ net) w) as [Ha Hn]; try assumption.
    + cbn [Block.getReward Block.reward_]. unfold tailEmission in Hfl. lia.
    + cbn [Block.getReward Block.reward_] in Ha. split; [lia|exact Hn].
  - split; [lia|exact Hnn].
Qed.

(** While what the pools hold plus what is minted stays a [uint64_t]
    value, the pools' total grows by exactly what was awarded. *)
Lemma loop_accrued (fuel : nat) :
  forall (b : Block.Block) (net : Network),
    nonneg_rewards (pools_ net) ->
    let '(log, _, netf) := loop fuel b net in
    accrued (pools_ net) + minted log <= moneySupply ->
    accrued (pools_ netf) = accrued (pools_ net) + awarded log.
Proof.
  induction fuel as [|fuel IH]; intros b net Hnn.
  - cbn [loop]. intros _. change (awarded []) with 0. lia.
  - destruct (Z.le_gt_cases (Block.getReward b) tailEmission) as [Hb|Hb].
    + rewrite loop_exited by exact Hb. intros _.
      change (awarded []) with 0. lia.
    + rewrite loop_step by lia.
      pose proof (loop_rewards fuel (fst (mineBlock net)) (snd (mineBlock net)))
        as Hrew.
      specialize (IH (fst (mineBlock net)) (snd (mineBlock net))).
      destruct (loop fuel (fst (mineBlock net)) (snd (mineBlock net)))
        as [[log bf] netf].
      cbv beta iota. rewrite minted_cons, mineBlock_reward. intros Hsum.
      destruct (awarded_minted log Hrew) as [Hle _].
      destruct (mineBlock_accrued net Hnn) as [Ha Hn]; [lia|].
      rewrite awarded_cons in Ha |- *. change (awarded []) with 0 in Ha.
      rewrite mineBlock_reward in Ha |- *.
      pose proof (getBlockReward_floor net) as Hfl. unfold tailEmission in Hfl.
      specialize (IH Hn). revert Ha.
      destruct (Block.minedBy_ (fst (mineBlock net))); intros Ha;
        rewrite IH; lia.
Qed.

Lemma loop_length (fuel : nat) :
  forall (b : Block.Block) (net : Network),
    (List.length (fst (fst (loop fuel b net))) <= fuel)%nat.
Proof.
  induction fuel as [|fuel IH]; intros b net; [simpl; lia|].
  destruct (Z.le_gt_cases (Block.getReward b) tailEmission) as [Hb|Hb].
  - rewrite loop_exited by exact Hb. simpl. lia.
  - rewrite loop_step by lia.
    specialize (IH (fst (mineBlock net)) (snd (mineBlock net))).
    destruct (loop fuel (fst (mineBlock net)) (snd (mineBlock net)))
      as [[log bf] netf].
    simpl in IH |- *. lia.
Qed.

End RunLedger.

(** ** The claims about a run *)

Lemma default_reward :
  Block.getReward Block.default = getBaseReward 0
  /\ tailEmission < Block.getReward Block.default.
Proof. split; reflexivity. Qed.

Section RunTotal.
Context `{Platform}.

(** With fuel, the first thing the loop does is to mine a block. *)
Lemma loop_first_block (fuel : nat) (net : Network) :
  exists rest : list Block.Block,
    fst (fst (loop (S fuel) Block.default net)) = fst (mineBlock net) :: rest.
Proof.
  rewrite loop_step by exact (proj2 default_reward).
  destruct (loop fuel (fst (mineBlock net)) (snd (mineBlock net)))
    as [[log bf] netf].
  exists log. reflexivity.
Qed.

(** Fuel beyond the bound of a run lets the loop exit. *)
Lemma loop_exits_at_bound (fuel : nat) (b : Block.Block) (net : Network) :
  is_uint64 (supply_ net) ->
  (S (Z.to_nat ((moneySupply - supply_ net) / (tailEmission + 1))) <= fuel)%nat ->
  Block.getReward (snd (fst (loop fuel b net))) <= tailEmission.
Proof.
  intros Hs Hfuel. apply loop_exits; [exact Hs|].
  assert (Hq : 0 <= (moneySupply - supply_ net) / (tailEmission + 1))
    by (apply Z.div_pos; unfold is_uint64, tailEmission in *; lia).
  pose proof (Z.mul_succ_div_gt (moneySupply - supply_ net)
                (tailEmission + 1) ltac:(unfold tailEmission; lia)) as Hdiv.
  assert (Hf : (moneySupply - supply_ net) / (tailEmission + 1) + 1
               <= Z.of_nat fuel) by lia.
  unfold tailEmission in *. nia.
Qed.

(** From a supply within the floor of the ceiling the loop mines one
    block, of reward [tailEmission], and exits. *)
Lemma loop_near_ceiling (fuel : nat) (net : Network) :
  is_uint64 (supply_ net) ->
  moneySupply - tailEmission < supply_ net ->
  Block.getReward (fst (mineBlock net)) = tailEmission
  /\ fst (fst (loop (S fuel) Block.default net)) = [fst (mineBlock net)].
Proof.
  intros Hs Hnear.
  assert (Hr : Block.getReward (fst (mineBlock net)) = tailEmission).
  { rewrite mineBlock_reward, getBlockReward_max.
    pose proof (getBaseReward_bounds _ Hs) as Hb. lia. }
  split; [exact Hr|].
  rewrite loop_step by exact (proj2 default_reward).
  rewrite (loop_exited fuel) by lia. reflexivity.
Qed.

End RunTotal.

Lemma minted_at_least (log : list Block.Block) :
  Forall (fun x => tailEmission <= Block.getReward x) log ->
  tailEmission * Z.of_nat (List.length log) <= minted log.
Proof.
  induction 1 as [|b log Hb _ IH]; [cbn; lia|].
  rewrite minted_cons. cbn [List.length]. unfold tailEmission in *. lia.
Qed.

(** C5. The loop tests the reward of the block produced last before it
    mines the next one, the first test being on the default-constructed
    block, whose reward is the curve at supply 0 and is above the floor: so
    after any number of iterations, one or more, the first block has been
    mined and every block but the last had a reward above [tailEmission].
    From a [uint64_t] supply the loop exits: the blocks mined are then
    [earlier ++ [b]], those of successive [mineBlock] calls, where [b], the
    block the loop ended on, has a reward of at most [tailEmission] and
    every earlier block a reward above it; nothing more is mined
    afterwards. *)
Theorem run_stops_at_first_floor_block `{Platform}
  (fuel : nat) (net : Network)
  (Hs : is_uint64 (supply_ net))
  (Hfuel : (S (Z.to_nat ((moneySupply - supply_ net) / (tailEmission + 1)))
            <= fuel)%nat) :
  Block.getReward Block.default = getBaseReward 0
  /\ (forall net0 : Network,
        supply_ net0 = 0 -> getBlockReward net0 = Block.getReward Block.default)
  /\ tailEmission < Block.getReward Block.default
  /\ (forall n : nat,
        let '(log, b, _) := loop (S n) Block.default net in
        (exists rest : list Block.Block, log = fst (mineBlock net) :: rest)
        /\ exists passed : list Block.Block,
             log = passed ++ [b]
             /\ Forall (fun x => tailEmission < Block.getReward x) passed)
  /\ exists (earlier : list Block.Block) (b : Block.Block) (netf : Network),
       loop fuel Block.default net = (earlier ++ [b], b, netf)
       /\ Forall (fun x => tailEmission < Block.getReward x) earlier
       /\ Block.getReward b <= tailEmission
       /\ mineBlocks (S (List.length earlier)) net = (earlier ++ [b], netf)
       /\ (exists rest : list Block.Block,
             earlier ++ [b] = fst (mineBlock net) :: rest)
       /\ (forall extra : nat,
             loop (fuel + extra) Block.default net = (earlier ++ [b], b, netf)).
Proof.
  destruct default_reward as [Hd0 Hd1].
  split; [exact Hd0|]. split.
  { intros net0 H0. unfold getBlockReward. rewrite H0. reflexivity. }
  split; [exact Hd1|].
  assert (Hshape : forall n : nat,
            let '(log, b, _) := loop (S n) Block.default net in
            (exists rest : list Block.Block, log = fst (mineBlock net) :: rest)
            /\ exists passed : list Block.Block,
                 log = passed ++ [b]
                 /\ Forall (fun x => tailEmission < Block.getReward x) passed).
  { intros n.
    pose proof (loop_first_block n net) as Hfirst.
    pose proof (loop_last (S n) Block.default net) as Hlast.
    destruct (loop (S n) Block.default net) as [[log b] netf].
    cbn [fst] in Hfirst. split; [exact Hfirst|].
    destruct Hfirst as [rest Hrest].
    destruct Hlast as (passed & Heq & Hall).
    destruct passed as [|p passed].
    - subst log. discriminate.
    - simpl in Heq. injection Heq as _ Hlog.
      exists passed. split; [exact Hlog|]. inversion Hall; assumption. }
  split; [exact Hshape|].
  pose proof (loop_exits_at_bound fuel Block.default net Hs Hfuel) as Hexit.
  pose proof (loop_mineBlocks fuel Block.default net) as Hm.
  pose proof (loop_stable fuel Block.default net) as Hstable.
  destruct fuel as [|fuel]; [lia|].
  specialize (Hshape fuel).
  destruct (loop (S fuel) Block.default net) as [[log b] netf].
  cbn [fst snd] in Hexit, Hstable.
  destruct Hshape as [Hfirst (earlier & Hlog & Hall)]. subst log.
  exists earlier, b, netf.
  split; [reflexivity|]. split; [exact Hall|]. split; [exact Hexit|].
  split; [|split].
  - rewrite length_app, Nat.add_1_r in Hm. exact Hm.
  - exact Hfirst.
  - intros extra. apply Hstable. exact Hexit.
Qed.

(** C6, as amended. For every seed, starting height and [uint64_t]
    starting supply, a run terminates, the floor reward being positive.
    A block mined from a supply [S] with [S + tailEmission <= moneySupply]
    raises the supply by exactly its reward, which is at least
    [tailEmission]; a block mined from a supply nearer the ceiling carries
    [tailEmission] and ends the run. So after at most
    [(moneySupply - startingSupply) / (tailEmission + 1) + 1] iterations the
    loop has exited, that many iterations or more give one and the same
    result, between one and that many blocks were mined, and the final
    supply is at least the starting supply plus [tailEmission] per block
    when the starting supply left room for the floor, the run having one
    block otherwise. *)
Theorem run_terminates `{Platform}
  (stats : list PoolStats.PoolStats) (seed startingHeight startingSupply : Z)
  (Hs : is_uint64 startingSupply) :
  let bound := S (Z.to_nat ((moneySupply - startingSupply) / (tailEmission + 1))) in
  0 < tailEmission
  /\ (forall net : Network,
        0 <= supply_ net <= moneySupply - tailEmission ->
        supply_ (snd (mineBlock net))
        = supply_ net + Block.getReward (fst (mineBlock net))
        /\ supply_ net + tailEmission <= supply_ (snd (mineBlock net)))
  /\ (forall net : Network,
        is_uint64 (supply_ net) ->
        moneySupply - tailEmission < supply_ net ->
        Block.getReward (fst (mineBlock net)) = tailEmission)
  /\ exists (result : list PoolStats.PoolStats)
            (log : list Block.Block) (b : Block.Block) (netf : Network),
       (forall fuel : nat, (bound <= fuel)%nat ->
          loop fuel Block.default (initial stats seed startingHeight startingSupply)
          = (log, b, netf))
       /\ Block.getReward b <= tailEmission
       /\ (1 <= List.length log <= bound)%nat
       /\ (startingSupply <= moneySupply - tailEmission ->
           supply_ netf = startingSupply + minted log
           /\ startingSupply + tailEmission * Z.of_nat (List.length log)
              <= supply_ netf <= moneySupply)
       /\ (moneySupply - tailEmission < startingSupply ->
           List.length log = 1%nat)
       /\ (forall fuel : nat, (bound <= fuel)%nat ->
             simulateUntilTailEmission fuel stats seed startingHeight startingSupply
             = Some result).
Proof.
  intros bound. split; [reflexivity|]. split; [|split].
  { intros net Hroom.
    destruct (mineBlock_room net Hroom) as (Hadd & _ & _).
    rewrite mineBlock_reward.
    pose proof (getBlockReward_floor net). lia. }
  { intros net Hu Hnear. apply (loop_near_ceiling 0 net Hu Hnear). }
  set (net := initial stats seed startingHeight startingSupply).
  assert (Hsup : supply_ net = startingSupply) by reflexivity.
  assert (Hexit : Block.getReward (snd (fst (loop bound Block.default net)))
                  <= tailEmission).
  { apply loop_exits_at_bound; rewrite ?Hsup; [exact Hs|]. subst bound. lia. }
  pose proof (loop_length bound Block.default net) as Hlen.
  pose proof (loop_first_block (Z.to_nat ((moneySupply - startingSupply)
                                          / (tailEmission + 1))) net) as Hfirst.
  fold bound in Hfirst.
  pose proof (loop_rewards bound Block.default net) as Hrew.
  pose proof (loop_supply_exact bound Block.default net) as Hexact.
  pose proof (loop_near_ceiling (Z.to_nat ((moneySupply - startingSupply)
                                           / (tailEmission + 1))) net) as Hnear.
  fold bound in Hnear. rewrite Hsup in Hexact, Hnear.
  assert (Hall : forall fuel : nat, (bound <= fuel)%nat ->
                   loop fuel Block.default net = loop bound Block.default net).
  { intros fuel Hfuel. replace fuel with (bound + (fuel - bound))%nat by lia.
    apply loop_stable. exact Hexit. }
  destruct (loop bound Block.default net) as [[log b] netf] eqn:Hloop.
  cbn [fst snd] in Hexit, Hlen, Hfirst, Hnear.
  exists (accumulate_all stats (pools_ netf)), log, b, netf.
  split; [exact Hall|]. split; [exact Hexit|]. split.
  { destruct Hfirst as [rest ->]. cbn [List.length] in *. lia. }
  split; [|split].
  - intros Hroom.
    destruct Hexact as (Hsum & Hmax & _);
      [unfold is_uint64 in Hs; lia | intros _; exact Hroom |].
    pose proof (minted_at_least log Hrew) as Hmin.
    split; [exact Hsum|]. lia.
  - intros Hclose. destruct (Hnear Hs Hclose) as [_ ->]. reflexivity.
  - intros fuel Hfuel. unfold simulateUntilTailEmission. fold net.
    rewrite (Hall fuel Hfuel).
    destruct (Z.ltb_spec tailEmission (Block.getReward b)); [lia|reflexivity].
Qed.

(** C7, as amended. In every run whose starting supply [S] has
    [S + tailEmission <= moneySupply], at every point the supply is the
    starting supply plus the plain sum of the rewards mined so far (no
    addition [supply_ += reward] has wrapped), it does not exceed
    [moneySupply], and the next addition, when the loop goes on, does not
    wrap either; nothing clamps the supply: this follows from the curve. *)
Theorem supply_never_overflows `{Platform}
  (fuel : nat) (stats : list PoolStats.PoolStats)
  (seed startingHeight startingSupply : Z)
  (Hs : 0 <= startingSupply <= moneySupply - tailEmission) :
  let '(log, b, net) :=
    loop fuel Block.default (initial stats seed startingHeight startingSupply) in
  supply_ net = startingSupply + minted log
  /\ startingSupply <= supply_ net <= moneySupply
  /\ (tailEmission < Block.getReward b ->
      supply_ net + getBlockReward net <= moneySupply).
Proof.
  set (net0 := initial stats seed startingHeight startingSupply).
  pose proof (loop_supply_exact fuel Block.default net0) as Hex.
  pose proof (loop_rewards fuel Block.default net0) as Hrew.
  destruct (loop fuel Block.default net0) as [[log b] net].
  destruct (awarded_minted log Hrew) as [Hpos _].
  unfold net0, initial, new in Hex. cbn [supply_] in Hex.
  destruct Hex as (Hsum & Hmax & Hroom);
    [unfold tailEmission in *; lia | intros _; lia |].
  split; [exact Hsum|]. split; [lia|].
  intros Hb. specialize (Hroom Hb).
  destruct (mineBlock_room net) as (Hadd & Hle & _).
  - pose proof (proj1 default_reward). unfold tailEmission in *. lia.
  - lia.
Qed.

(** C8. At every point of a run (from a [uint64_t] starting supply), the
    rewards accrued by the tracked pools add up to the rewards of the blocks
    awarded to a pool, which is at most the reward minted in the run so
    far; the two are equal exactly when no block so far went to the
    residual share. *)
Theorem accrued_at_most_minted `{Platform}
  (fuel : nat) (stats : list PoolStats.PoolStats)
  (seed startingHeight startingSupply : Z)
  (Hs : is_uint64 startingSupply) :
  let '(log, b, net) :=
    loop fuel Block.default (initial stats seed startingHeight startingSupply) in
  accrued (pools_ net) = awarded log
  /\ accrued (pools_ net) <= minted log
  /\ (accrued (pools_ net) = minted log <-> no_residual log = true).
Proof.
  set (net0 := initial stats seed startingHeight startingSupply).
  pose proof (loop_accrued fuel Block.default net0) as Hacc.
  pose proof (loop_rewards fuel Block.default net0) as Hrew.
  pose proof (loop_minted_bound fuel Block.default net0) as Hbound.
  destruct (loop fuel Block.default net0) as [[log b] net].
  destruct (awarded_minted log Hrew) as [Hle Heq].
  destruct (accrued_fresh stats) as [H0 Hnn].
  unfold net0, initial, new in Hacc, Hbound. cbn [pools_ supply_] in Hacc, Hbound.
  specialize (Hbound Hs). rewrite H0 in Hacc.
  unfold is_uint64 in Hs.
  rewrite Hacc; [|exact Hnn|unfold tailEmission, moneySupply in *; lia].
  split; [lia|]. split; [lia|].
  rewrite <- Heq. lia.
Qed.

(** ** StatsSet *)

Section Stats.
Context {D : Type} `{Double D}.

Lemma Sigma_upto_app (f : D -> D) (l : list D) (x : D) :
  forall k : nat, (k <= List.length l)%nat ->
    StatsSet.Sigma_upto f (l ++ [x]) k = StatsSet.Sigma_upto f l k.
Proof.
  induction k as [|k IH]; intros Hk; [reflexivity|].
  cbn [StatsSet.Sigma_upto]. rewrite IH by lia.
  rewrite app_nth1 by lia. reflexivity.
Qed.

Lemma Sigma_snoc (f : D -> D) (l : list D) (x : D) :
  StatsSet.Sigma f (l ++ [x]) = d_add (StatsSet.Sigma f l) (f x).
Proof.
  unfold StatsSet.Sigma. rewrite length_app, Nat.add_1_r.
  cbn [StatsSet.Sigma_upto]. rewrite Sigma_upto_app by lia.
  rewrite app_nth2, Nat.sub_diag by lia. reflexivity.
Qed.

(** An accumulation loop over the vector computes the indexed sum. *)
Lemma fold_left_Sigma (f : D -> D) (l : list D) :
  fold_left (fun acc val => d_add acc (f val)) l d_zero = StatsSet.Sigma f l.
Proof.
  induction l as [|x l IH] using rev_ind; [reflexivity|].
  rewrite fold_left_app, Sigma_snoc, <- IH. reflexivity.
Qed.

Lemma printStats_eq (s : StatsSet.StatsSet D) :
  let l := StatsSet.values_ s in
  let size := d_of_size (List.length l) in
  StatsSet.printStats s
  = (StatsSet.spec_mean l,
     d_sqrt (d_div (d_div (StatsSet.Sigma (StatsSet.sq_dev l) l) size) size)).
Proof.
  cbv zeta. unfold StatsSet.printStats, StatsSet.spec_mean.
  rewrite <- (fold_left_Sigma (fun x => x)).
  rewrite <- (fold_left_Sigma (StatsSet.sq_dev (StatsSet.values_ s))).
  unfold StatsSet.sq_dev, StatsSet.spec_mean.
  rewrite <- (fold_left_Sigma (fun x => x)). reflexivity.
Qed.

End Stats.

(** C1, as amended. Reporting computes [mean = (Σ samples) / N] and
    [error = sqrt(((Σ (sample − mean)²) / N) / N)] by two passes over the
    samples, in double arithmetic as in exact arithmetic; for a non-empty
    sample set, in exact arithmetic, that error is the standard deviation
    [sqrt((Σ (sample − mean)²) / N)] of the sample set divided by [sqrt N]
    (not by [N]). *)
Theorem printStats_formula :
  (forall (D : Type) (ops : Double D) (s : StatsSet.StatsSet D),
      let l := StatsSet.values_ s in
      let size := d_of_size (List.length l) in
      StatsSet.printStats s
      = (d_div (StatsSet.Sigma (fun x => x) l) size,
         d_sqrt (d_div (d_div (StatsSet.Sigma (StatsSet.sq_dev l) l) size) size)))
  /\ (forall s : StatsSet.StatsSet R,
        StatsSet.values_ s <> [] ->
        let l := StatsSet.values_ s in
        snd (StatsSet.printStats s)
        = (R_sqrt.sqrt (StatsSet.Sigma (StatsSet.sq_dev l) l / INR (List.length l))
           / R_sqrt.sqrt (INR (List.length l)))%R).
Proof.
  split.
  - intros D ops s. apply printStats_eq.
  - intros s Hne l. rewrite printStats_eq. cbn [snd].
    cbn [d_sqrt d_div d_of_size exact]. subst l.
    apply sqrt_div_alt. apply lt_0_INR.
    destruct (StatsSet.values_ s) as [|x l'] eqn:Hl; [congruence|simpl; lia].
Qed.

(** C9. Reporting on a [StatsSet] that holds no sample yields a NaN for the
    mean and a NaN for the error: neither is a zero, so the report is not
    [0 +/- 0]. *)
Theorem printStats_no_samples :
  forall name : string,
    let report := StatsSet.printStats (StatsSet.new (D := float) name) in
    report = (PrimFloat.nan, PrimFloat.nan)
    /\ PrimFloat.is_nan (fst report) = true
    /\ PrimFloat.is_nan (snd report) = true
    /\ (fst report =? 0)%float = false
    /\ (snd report =? 0)%float = false.
Proof.
  intros name. cbv zeta.
  assert (Hrep : StatsSet.printStats (StatsSet.new (D := float) name)
                 = (PrimFloat.nan, PrimFloat.nan)) by (vm_compute; reflexivity).
  rewrite Hrep. repeat split.
Qed.

(** ** Concrete runs *)

(** C1, the claim as stated fails: on the samples 1, 3, 1, 3 the program
    reports mean 2 and error 0.5, where [sqrt((Σ (sample − mean)²) / N) / N]
    is 0.25. *)
Lemma printStats_error_is_not_spec_error :
  StatsSet.printStats example_samples = (2, 0.5)%float
  /\ StatsSet.spec_mean (StatsSet.values_ example_samples) = 2%float
  /\ StatsSet.spec_error (StatsSet.values_ example_samples) = 0.25%float
  /\ (snd (StatsSet.printStats example_samples)
      =? StatsSet.spec_error (StatsSet.values_ example_samples))%float = false.
Proof. repeat split; vm_compute; reflexivity. Qed.

Lemma printStats_formula_witness :
  StatsSet.values_ example_real_samples <> []
  /\ snd (StatsSet.printStats example_real_samples)
     = (R_sqrt.sqrt
          (StatsSet.Sigma (StatsSet.sq_dev (StatsSet.values_ example_real_samples))
             (StatsSet.values_ example_real_samples) / INR 4)
        / R_sqrt.sqrt (INR 4))%R.
Proof.
  split.
  - discriminate.
  - apply (proj2 printStats_formula example_real_samples). discriminate.
Defined.

Lemma getBlockReward_curve_witness :
  0 <= supply_ example_net < moneySupply
  /\ getBlockReward example_net = 600003000000
  /\ tailEmission <= getBlockReward example_net.
Proof.
  assert (Hs : 0 <= supply_ example_net < moneySupply)
    by (vm_compute; split; [discriminate|reflexivity]).
  split; [exact Hs|].
  destruct (getBlockReward_curve example_net Hs) as (Hmax & _ & Hfloor & _).
  split; [rewrite Hmax; reflexivity|exact Hfloor].
Defined.

Lemma getBaseReward_total_witness :
  is_uint64 moneySupply
  /\ getBaseReward moneySupply = (moneySupply - moneySupply) / 2 ^ 18
  /\ getBlockReward (@initial example_platform example_stats 1 2082536 moneySupply)
     = tailEmission.
Proof.
  assert (Hs : is_uint64 moneySupply) by (vm_compute; split; discriminate).
  split; [exact Hs|].
  destruct (getBaseReward_total moneySupply Hs) as (_ & _ & Hq & _ & _ & Hfloor).
  split; [exact Hq|]. apply Hfloor. reflexivity.
Defined.

(** C3, the claim as stated fails: at supply [moneySupply - 1] the addition
    of the reward wraps, and the supply falls to 599999999998; at the largest
    height the increment wraps to 0. *)
Lemma mineBlock_wraps :
  (let '(b, net') := mineBlock ceiling_net in
   supply_ ceiling_net = 18446744073709551614
   /\ Block.getReward b = 600000000000
   /\ supply_ net' = 599999999998
   /\ (supply_ net' =? supply_ ceiling_net + Block.getReward b) = false)
  /\ (let '(b, net') := mineBlock top_height_net in
      height_ top_height_net = 18446744073709551615
      /\ height_ net' = 0
      /\ (height_ net' =? height_ top_height_net + 1) = false).
Proof. vm_compute. repeat split. Qed.

Lemma mineBlock_advance_witness :
  0 <= height_ example_net < 2 ^ @Height_bits example_platform - 1
  /\ 0 <= supply_ example_net <= moneySupply - tailEmission
  /\ height_ (snd (mineBlock example_net)) = 2082537
  /\ supply_ (snd (mineBlock example_net))
     = example_supply + Block.getReward (fst (mineBlock example_net)).
Proof.
  assert (Hh : 0 <= height_ example_net < 2 ^ @Height_bits example_platform - 1)
    by (vm_compute; split; [discriminate|reflexivity]).
  assert (Hs : 0 <= supply_ example_net <= moneySupply - tailEmission)
    by (vm_compute; split; discriminate).
  split; [exact Hh|]. split; [exact Hs|].
  pose proof (mineBlock_advance example_net Hh Hs) as Hadv.
  destruct (mineBlock example_net) as [b net'].
  destruct Hadv as (Hheight & _ & _ & Hsupply & _).
  split; [exact Hheight|exact Hsupply].
Defined.

Lemma run_stops_at_first_floor_block_witness :
  is_uint64 (supply_ ceiling_net)
  /\ (S (Z.to_nat ((moneySupply - supply_ ceiling_net) / (tailEmission + 1)))
      <= 1)%nat
  /\ exists (earlier : list Block.Block) (b : Block.Block)
            (netf : @Network example_platform),
       loop 1 Block.default ceiling_net = (earlier ++ [b], b, netf)
       /\ Block.getReward b <= tailEmission.
Proof.
  assert (Hs : is_uint64 (supply_ ceiling_net))
    by (vm_compute; split; discriminate).
  assert (Hfuel : (S (Z.to_nat ((moneySupply - supply_ ceiling_net)
                                / (tailEmission + 1))) <= 1)%nat)
    by (vm_compute; constructor).
  split; [exact Hs|]. split; [exact Hfuel|].
  destruct (run_stops_at_first_floor_block 1 ceiling_net Hs Hfuel)
    as (_ & _ & _ & _ & earlier & b & netf & Hrun & _ & Hexit & _).
  exists earlier, b, netf. split; [exact Hrun|exact Hexit].
Defined.

(** C6, the claim as stated fails: the run from supply [moneySupply - 1]
    terminates after one block, and that block does not raise the supply by
    at least [tailEmission]: the supply falls from 18446744073709551614 to
    599999999998. *)
Lemma block_near_ceiling_lowers_supply :
  let '(log, b, net) := loop 5 Block.default ceiling_net in
  supply_ ceiling_net = 18446744073709551614
  /\ log = [b]
  /\ Block.getReward b = tailEmission
  /\ supply_ net = 599999999998
  /\ (supply_ ceiling_net + tailEmission <=? supply_ net) = false
  /\ (supply_ net <? supply_ ceiling_net) = true.
Proof.
  vm_compute. repeat split.
Qed.

Lemma run_terminates_witness :
  is_uint64 example_supply
  /\ exists result : list PoolStats.PoolStats,
       forall fuel : nat,
         (S (Z.to_nat ((moneySupply - example_supply) / (tailEmission + 1))) <= fuel)%nat ->
         @simulateUntilTailEmission example_platform fuel example_stats 1 2082536
           example_supply
         = Some result.
Proof.
  assert (Hs : is_uint64 example_supply) by (vm_compute; split; discriminate).
  split; [exact Hs|].
  destruct (@run_terminates example_platform example_stats 1 2082536 example_supply Hs)
    as (_ & _ & _ & result & _ & _ & _ & _ & _ & _ & _ & _ & Hsim).
  exists result. exact Hsim.
Defined.

(** C7, the claim as stated fails: the run from supply [moneySupply - 1]
    mines one block, of reward [tailEmission]; the addition exceeds
    [moneySupply] and wraps, leaving a supply of 599999999998. *)
Lemma supply_overflows_near_ceiling :
  let '(log, b, net) := loop 5 Block.default ceiling_net in
  0 <= supply_ ceiling_net < moneySupply
  /\ log = [b]
  /\ Block.getReward b = tailEmission
  /\ (moneySupply <? supply_ ceiling_net + Block.getReward b) = true
  /\ supply_ net = 599999999998
  /\ (supply_ net =? supply_ ceiling_net + minted log) = false.
Proof.
  vm_compute. repeat split; discriminate.
Qed.

Lemma supply_never_overflows_witness :
  0 <= example_supply <= moneySupply - tailEmission
  /\ supply_ (snd (loop 5 Block.default example_net))
     = example_supply + minted (fst (fst (loop 5 Block.default example_net))).
Proof.
  assert (Hs : 0 <= example_supply <= moneySupply - tailEmission)
    by (vm_compute; split; discriminate).
  split; [exact Hs|].
  pose proof (@supply_never_overflows example_platform 5 example_stats 1 2082536
                example_supply Hs) as Hinv.
  fold example_net in Hinv.
  destruct (loop 5 Block.default example_net) as [[log b] net].
  exact (proj1 Hinv).
Defined.

Lemma accrued_at_most_minted_witness :
  is_uint64 example_supply
  /\ accrued (pools_ (snd (loop 5 Block.default example_net)))
     <= minted (fst (fst (loop 5 Block.default example_net))).
Proof.
  assert (Hs : is_uint64 example_supply) by (vm_compute; split; discriminate).
  split; [exact Hs|].
  pose proof (@accrued_at_most_minted example_platform 5 example_stats 1 2082536
                example_supply Hs) as Hinv.
  fold example_net in Hinv.
  destruct (loop 5 Block.default example_net) as [[log b] net].
  exact (proj1 (proj2 Hinv)).
Defined.

(** * Further properties of the code *)

(** ** The rewards of a run *)

Lemma base_strictly_decreases (s : Z) :
  is_uint64 s -> tailEmission < getBaseReward s ->
  getBaseReward (s + getBaseReward s) < getBaseReward s.
Proof.
  intros Hs Hgt.
  pose proof (base_above_floor_room s Hs Hgt) as Hroom.
  pose proof (getBaseReward_bounds s Hs) as Hb.
  assert (Hs' : is_uint64 (s + getBaseReward s))
    by (unfold is_uint64, tailEmission in *; lia).
  rewrite (getBaseReward_exact _ Hs').
  rewrite (getBaseReward_exact _ Hs) in *.
  destruct Hs as [Hlo Hhi]. change (2 ^ 18) with 262144 in *.
  pose proof (Z.mul_succ_div_gt (moneySupply - s) 262144 ltac:(lia)) as Hup.
  apply Z.div_lt_upper_bound; [lia|].
  unfold tailEmission in *. lia.
Qed.

Section RunRewards.
Context `{Platform}.

Lemma loop_rewards_sorted (fuel : nat) :
  forall (b : Block.Block) (net : Network),
    is_uint64 (supply_ net) ->
    let '(log, _, _) := loop fuel b net in
    Forall (fun x => Block.getReward x <= getBlockReward net) log
    /\ StronglySorted (fun x y => Block.getReward y < Block.getReward x) log.
Proof.
  induction fuel as [|fuel IH]; intros b net Hs.
  - cbn [loop]. split; constructor.
  - destruct (Z.le_gt_cases (Block.getReward b) tailEmission) as [Hb|Hb].
    + rewrite loop_exited by exact Hb. split; constructor.
    + rewrite loop_step by lia.
      pose proof (getBlockReward_max net) as Hmax.
      pose proof (getBaseReward_bounds _ Hs) as Hbase.
      destruct (Z.le_gt_cases (getBlockReward net) tailEmission) as [Hr|Hr].
      * rewrite (loop_exited fuel) by (rewrite mineBlock_reward; exact Hr).
        cbv beta iota. split.
        -- constructor; [rewrite mineBlock_reward; lia|constructor].
        -- constructor; constructor.
      * pose proof (base_above_floor_room _ Hs) as Hroom.
        pose proof (base_strictly_decreases _ Hs) as Hstrict.
        pose proof (mineBlock_supply net) as Hsup.
        rewrite wrap64_small in Hsup
          by (unfold is_uint64, tailEmission in *; lia).
        pose proof (getBlockReward_max (snd (mineBlock net))) as Hmax'.
        rewrite Hsup in Hmax'.
        specialize (IH (fst (mineBlock net)) (snd (mineBlock net))).
        destruct (loop fuel (fst (mineBlock net)) (snd (mineBlock net)))
          as [[log bf] netf].
        destruct IH as [Hall Hsorted];
          [unfold is_uint64, tailEmission in *; lia|].
        assert (Hnext : getBlockReward (snd (mineBlock net)) < getBlockReward net).
        { replace (getBlockReward net) with (getBaseReward (supply_ net)) in * by lia.
          specialize (Hstrict ltac:(lia)). lia. }
        cbv beta iota. split.
        -- constructor; [rewrite mineBlock_reward; lia|].
           eapply Forall_impl; [|exact Hall]. cbv beta. intros x Hx. lia.
        -- constructor; [exact Hsorted|].
           eapply Forall_impl; [|exact Hall]. cbv beta. intros x Hx.
           rewrite mineBlock_reward. lia.
Qed.

End RunRewards.

(** X1. Within a run (from a [uint64_t] supply) every block carries a
    strictly smaller reward than each block mined before it, and once the
    loop has exited the block it ended on carries exactly [tailEmission]. *)
Theorem run_rewards_decrease `{Platform} (fuel : nat) (net : Network)
  (Hs : is_uint64 (supply_ net)) :
  let '(log, b, _) := loop fuel Block.default net in
  StronglySorted (fun x y => Block.getReward y < Block.getReward x) log
  /\ (Block.getReward b <= tailEmission -> Block.getReward b = tailEmission).
Proof.
  pose proof (loop_rewards_sorted fuel Block.default net Hs) as Hsorted.
  pose proof (loop_rewards fuel Block.default net) as Hfloor.
  pose proof (loop_last fuel Block.default net) as Hlast.
  destruct (loop fuel Block.default net) as [[log b] netf].
  split; [exact (proj2 Hsorted)|].
  intros Hexit. destruct Hlast as (passed & Heq & Hpassed).
  destruct passed as [|p earlier]; simpl in Heq; injection Heq as Hhd Hlog.
  - subst b. pose proof (proj2 default_reward). lia.
  - subst log. apply Forall_app in Hfloor. destruct Hfloor as [_ Hb].
    inversion Hb; subst. lia.
Qed.

Lemma run_rewards_decrease_witness :
  is_uint64 (supply_ example_net)
  /\ StronglySorted (fun x y => Block.getReward y < Block.getReward x)
       (fst (fst (loop 5 Block.default example_net))).
Proof.
  assert (Hs : is_uint64 (supply_ example_net))
    by (vm_compute; split; discriminate).
  split; [exact Hs|].
  pose proof (run_rewards_decrease 5 example_net Hs) as Hdec.
  destruct (loop 5 Block.default example_net) as [[log b] netf].
  exact (proj1 Hdec).
Defined.

(** ** What a run does not depend on *)

Lemma loop_rewards_agree (P1 P2 : Platform) (fuel : nat) :
  forall (b1 : Block.Block) (net1 : @Network P1)
         (b2 : Block.Block) (net2 : @Network P2),
    Block.getReward b1 = Block.getReward b2 ->
    supply_ net1 = supply_ net2 ->
    let '(log1, bf1, netf1) := @loop P1 fuel b1 net1 in
    let '(log2, bf2, netf2) := @loop P2 fuel b2 net2 in
    map Block.getReward log1 = map Block.getReward log2
    /\ Block.getReward bf1 = Block.getReward bf2
    /\ supply_ netf1 = supply_ netf2.
Proof.
  induction fuel as [|fuel IH]; intros b1 net1 b2 net2 Hb Hs.
  - cbn [loop]. repeat split; assumption.
  - destruct (Z.le_gt_cases (Block.getReward b1) tailEmission) as [Hle|Hgt].
    + rewrite !loop_exited by lia. repeat split; assumption.
    + rewrite !loop_step by lia.
      assert (Hr : @getBlockReward P1 net1 = @getBlockReward P2 net2)
        by (unfold getBlockReward; rewrite Hs; reflexivity).
      specialize (IH (fst (@mineBlock P1 net1)) (snd (@mineBlock P1 net1))
                     (fst (@mineBlock P2 net2)) (snd (@mineBlock P2 net2))).
      rewrite !mineBlock_reward, !mineBlock_supply in IH.
      specialize (IH Hr ltac:(rewrite Hs, Hr; reflexivity)).
      destruct (@loop P1 fuel (fst (@mineBlock P1 net1)) (snd (@mineBlock P1 net1)))
        as [[log1 bf1] netf1].
      destruct (@loop P2 fuel (fst (@mineBlock P2 net2)) (snd (@mineBlock P2 net2)))
        as [[log2 bf2] netf2].
      destruct IH as (Hlog & Hbf & Hsup).
      cbn [map]. rewrite !mineBlock_reward, Hr, Hlog.
      repeat split; assumption.
Qed.

(** X2. The rewards mined in a run, hence the number of blocks of the run
    and its final supply, depend on the starting supply only: not on the
    seed, the engine, the pools, the starting height or the width of
    [Height]. *)
Theorem run_rewards_ignore_seed (P1 P2 : Platform) (fuel : nat)
  (stats1 stats2 : list PoolStats.PoolStats) (seed1 seed2 height1 height2 : Z)
  (startingSupply : Z) :
  let '(log1, b1, net1) :=
    @loop P1 fuel Block.default (initial stats1 seed1 height1 startingSupply) in
  let '(log2, b2, net2) :=
    @loop P2 fuel Block.default (initial stats2 seed2 height2 startingSupply) in
  map Block.getReward log1 = map Block.getReward log2
  /\ List.length log1 = List.length log2
  /\ Block.getReward b1 = Block.getReward b2
  /\ supply_ net1 = supply_ net2.
Proof.
  pose proof (loop_rewards_agree P1 P2 fuel
                Block.default (initial stats1 seed1 height1 startingSupply)
                Block.default (initial stats2 seed2 height2 startingSupply)
                eq_refl eq_refl) as Hagree.
  destruct (@loop P1 fuel Block.default (initial stats1 seed1 height1 startingSupply))
    as [[log1 b1] net1].
  destruct (@loop P2 fuel Block.default (initial stats2 seed2 height2 startingSupply))
    as [[log2 b2] net2].
  destruct Hagree as (Hlog & Hb & Hsup).
  repeat split; try assumption.
  rewrite <- (length_map Block.getReward log1), Hlog. apply length_map.
Qed.

(** ** The pools along a run *)

Lemma update_map_fixed {A B : Type} (g : A -> B) (f : A -> A) (l : list A) :
  (forall x : A, g (f x) = g x) ->
  forall i : nat, map g (update i f l) = map g l.
Proof.
  intros Hfix. induction l as [|x rest IH]; intros i;
    [destruct i; reflexivity|].
  destruct i as [|i]; cbn [update map].
  - rewrite Hfix. reflexivity.
  - rewrite IH. reflexivity.
Qed.

Section RunPools.
Context `{Platform}.

Lemma mineBlock_identity (net : Network) :
  map Pool.name_ (pools_ (snd (mineBlock net))) = map Pool.name_ (pools_ net)
  /\ map Pool.hashrate_ (pools_ (snd (mineBlock net)))
     = map Pool.hashrate_ (pools_ net).
Proof.
  rewrite mineBlock_eq. cbv zeta. cbn [snd pools_].
  destruct (select (pools_ net) 0 (fst (uniform_real (rng_ net))) 0%float);
    [|split; reflexivity].
  split; apply update_map_fixed; reflexivity.
Qed.

Lemma mineBlock_pool (net : Network) (i : nat) :
  nth_error (pools_ (snd (mineBlock net))) i
  = option_map
      (fun p => if won_by i (fst (mineBlock net))
                then Pool.addBlock (fst (mineBlock net)) p else p)
      (nth_error (pools_ net) i).
Proof.
  rewrite mineBlock_eq. cbv zeta. cbn [fst snd pools_].
  unfold won_by. cbn [Block.minedBy_].
  destruct (select (pools_ net) 0 (fst (uniform_real (rng_ net))) 0%float) as [w|].
  - rewrite update_nth_error. rewrite (Nat.eqb_sym i w).
    destruct (Nat.eqb_spec w i) as [->|Hne]; [reflexivity|].
    destruct (nth_error (pools_ net) i); reflexivity.
  - destruct (nth_error (pools_ net) i); reflexivity.
Qed.

Lemma rewards_of_cons (i : nat) (b : Block.Block) (log : list Block.Block) :
  rewards_of i (b :: log)
  = if won_by i b then Block.getReward b + rewards_of i log else rewards_of i log.
Proof. unfold rewards_of. cbn [filter]. destruct (won_by i b); reflexivity. Qed.

Lemma blocks_of_cons (i : nat) (b : Block.Block) (log : list Block.Block) :
  blocks_of i (b :: log)
  = if won_by i b then 1 + blocks_of i log else blocks_of i log.
Proof.
  unfold blocks_of. cbn [filter]. destruct (won_by i b); [|reflexivity].
  cbn [List.length]. lia.
Qed.

(** Pool [i] at any point of the loop: its counters are the starting ones
    plus what it won, in machine arithmetic. *)
Lemma loop_pool (i : nat) (fuel : nat) :
  forall (b : Block.Block) (net : Network) (p0 : Pool.Pool),
    nth_error (pools_ net) i = Some p0 ->
    wrap64 (Pool.rewards_ p0) = Pool.rewards_ p0 ->
    wrapH (Pool.blocks_ p0) = Pool.blocks_ p0 ->
    let '(log, _, netf) := loop fuel b net in
    exists p : Pool.Pool,
      nth_error (pools_ netf) i = Some p
      /\ Pool.rewards_ p = wrap64 (Pool.rewards_ p0 + rewards_of i log)
      /\ Pool.blocks_ p = wrapH (Pool.blocks_ p0 + blocks_of i log).
Proof.
  induction fuel as [|fuel IH]; intros b net p0 Hp0 Hr0 Hb0.
  - cbn [loop]. exists p0. unfold rewards_of, blocks_of. cbn [filter minted fold_right List.length].
    rewrite !Z.add_0_r. auto.
  - destruct (Z.le_gt_cases (Block.getReward b) tailEmission) as [Hb|Hb].
    + rewrite loop_exited by exact Hb. exists p0.
      unfold rewards_of, blocks_of. cbn [filter minted fold_right List.length].
      rewrite !Z.add_0_r. auto.
    + rewrite loop_step by lia.
      pose proof (mineBlock_pool net i) as Hstep. rewrite Hp0 in Hstep.
      cbn [option_map] in Hstep.
      specialize (IH (fst (mineBlock net)) (snd (mineBlock net)) _ Hstep).
      destruct (loop fuel (fst (mineBlock net)) (snd (mineBlock net)))
        as [[log bf] netf].
      cbv beta iota. rewrite rewards_of_cons, blocks_of_cons.
      destruct (won_by i (fst (mineBlock net))).
      * destruct IH as (p & Hp & Hrew & Hblk).
        -- unfold Pool.addBlock. cbn [Pool.rewards_]. unfold wrap64, wrap.
           apply Zmod_mod.
        -- unfold Pool.addBlock. cbn [Pool.blocks_]. unfold wrapH, wrap.
           apply Zmod_mod.
        -- exists p. split; [exact Hp|]. split.
           ++ rewrite Hrew. unfold Pool.addBlock. cbn [Pool.rewards_].
              unfold wrap64, wrap. rewrite Zplus_mod_idemp_l. f_equal. lia.
           ++ rewrite Hblk. unfold Pool.addBlock. cbn [Pool.blocks_].
              unfold wrapH, wrap. rewrite Zplus_mod_idemp_l. f_equal. lia.
      * apply IH; assumption.
Qed.

Lemma loop_identity (fuel : nat) :
  forall (b : Block.Block) (net : Network),
    let '(_, _, netf) := loop fuel b net in
    map Pool.name_ (pools_ netf) = map Pool.name_ (pools_ net)
    /\ map Pool.hashrate_ (pools_ netf) = map Pool.hashrate_ (pools_ net).
Proof.
  induction fuel as [|fuel IH]; intros b net.
  - cbn [loop]. split; reflexivity.
  - destruct (Z.le_gt_cases (Block.getReward b) tailEmission) as [Hb|Hb].
    + rewrite loop_exited by exact Hb. split; reflexivity.
    + rewrite loop_step by lia.
      destruct (mineBlock_identity net) as [Hn Hh].
      specialize (IH (fst (mineBlock net)) (snd (mineBlock net))).
      destruct (loop fuel (fst (mineBlock net)) (snd (mineBlock net)))
        as [[log bf] netf].
      cbv beta iota. destruct IH as [IHn IHh].
      rewrite IHn, IHh. split; assumption.
Qed.

(** A run mines at most [(moneySupply - supply) / (tailEmission + 1) + 1]
    blocks, whatever the fuel. *)
Lemma loop_length_bound (fuel : nat) (net : Network) :
  is_uint64 (supply_ net) ->
  Z.of_nat (List.length (fst (fst (loop fuel Block.default net))))
  <= (moneySupply - supply_ net) / (tailEmission + 1) + 1.
Proof.
  intros Hs.
  set (bound := S (Z.to_nat ((moneySupply - supply_ net) / (tailEmission + 1)))).
  assert (Hq : 0 <= (moneySupply - supply_ net) / (tailEmission + 1))
    by (apply Z.div_pos; unfold is_uint64, tailEmission in *; lia).
  assert (Hexit : Block.getReward (snd (fst (loop bound Block.default net)))
                  <= tailEmission).
  { apply loop_exits; [exact Hs|]. subst bound.
    rewrite Nat2Z.inj_succ, Z2Nat.id by exact Hq.
    pose proof (Z.mul_succ_div_gt (moneySupply - supply_ net)
                  (tailEmission + 1) ltac:(unfold tailEmission; lia)) as Hdiv.
    lia. }
  destruct (Nat.le_gt_cases fuel bound) as [Hle|Hgt].
  - pose proof (loop_length fuel Block.default net) as Hlen. subst bound. lia.
  - replace fuel with (bound + (fuel - bound))%nat by lia.
    rewrite loop_stable by exact Hexit.
    pose proof (loop_length bound Block.default net) as Hlen. subst bound. lia.
Qed.

End RunPools.

Lemma minted_filter (f : Block.Block -> bool) (log : list Block.Block) :
  Forall (fun x => tailEmission <= Block.getReward x) log ->
  0 <= minted (filter f log) <= minted log.
Proof.
  induction 1 as [|b log Hb _ IH]; [cbn; lia|].
  cbn [filter]. unfold tailEmission in Hb.
  destruct (f b); rewrite ?minted_cons; lia.
Qed.

(** X3. At every point of a run from fresh pools (a [uint64_t] starting
    supply, a [Height] of at least 32 bits), each pool's accrued reward is
    the sum of the rewards of the blocks it won and its block count is the
    number of blocks it won: neither counter has wrapped. *)
Theorem pool_ledger `{Platform}
  (fuel : nat) (stats : list PoolStats.PoolStats)
  (seed startingHeight startingSupply : Z)
  (Hs : is_uint64 startingSupply) (Hbits : 32 <= Height_bits) :
  let '(log, _, net) :=
    loop fuel Block.default (initial stats seed startingHeight startingSupply) in
  forall (i : nat) (st : PoolStats.PoolStats),
    nth_error stats i = Some st ->
    exists p : Pool.Pool,
      nth_error (pools_ net) i = Some p
      /\ Pool.getRewards p = rewards_of i log
      /\ Pool.getBlocks p = blocks_of i log.
Proof.
  set (net0 := initial stats seed startingHeight startingSupply).
  pose proof (loop_rewards fuel Block.default net0) as Hrew.
  pose proof (loop_minted_bound fuel Block.default net0 Hs) as Hmint.
  pose proof (loop_length_bound fuel net0 Hs) as Hlen.
  assert (Hpool : forall i, let '(log, _, netf) := loop fuel Block.default net0 in
            forall st, nth_error stats i = Some st ->
            exists p : Pool.Pool,
              nth_error (pools_ netf) i = Some p
              /\ Pool.rewards_ p = wrap64 (0 + rewards_of i log)
              /\ Pool.blocks_ p = wrapH (0 + blocks_of i log)).
  { intros i.
    pose proof (loop_pool i fuel Block.default net0) as Hl.
    destruct (loop fuel Block.default net0) as [[log b] netf].
    intros st Hst.
    apply (Hl (PoolStats.getPool st)).
    - unfold net0, initial, new. cbn [pools_].
      apply map_nth_error. exact Hst.
    - reflexivity.
    - unfold wrapH, wrap. apply Zmod_0_l. }
  destruct (loop fuel Block.default net0) as [[log b] net].
  cbn [fst snd] in Hlen. unfold net0, initial, new in Hmint, Hlen.
  cbn [supply_] in Hmint, Hlen.
  intros i st Hst.
  specialize (Hpool i). cbv beta iota in Hpool.
  destruct (Hpool st Hst) as (p & Hp & Hr & Hb).
  exists p. split; [exact Hp|].
  pose proof (minted_filter (won_by i) log Hrew) as Hwon.
  fold (rewards_of i log) in Hwon.
  assert (Hcount : 0 <= blocks_of i log <= Z.of_nat (List.length log)).
  { unfold blocks_of. pose proof (filter_length_le (won_by i) log). lia. }
  assert (Hdiv : (moneySupply - startingSupply) / (tailEmission + 1) <= 30744573).
  { change 30744573 with (moneySupply / (tailEmission + 1)).
    apply Z.div_le_mono; [reflexivity|]. unfold is_uint64 in Hs. lia. }
  assert (Hpow : 2 ^ 32 <= 2 ^ Height_bits) by (apply Z.pow_le_mono_r; lia).
  unfold Pool.getRewards, Pool.getBlocks. split.
  - rewrite Hr, Z.add_0_l. apply wrap64_small.
    unfold is_uint64, tailEmission, moneySupply in *. lia.
  - rewrite Hb, Z.add_0_l. unfold wrapH, wrap. apply Z.mod_small.
    change (2 ^ 32) with 4294967296 in Hpow. lia.
Qed.

Lemma pool_ledger_witness :
  is_uint64 example_supply
  /\ 32 <= @Height_bits example_platform
  /\ exists p : Pool.Pool,
       nth_error (pools_ (snd (loop 5 Block.default example_net))) 1 = Some p
       /\ Pool.getRewards p = 600000711170
       /\ Pool.getBlocks p = 1.
Proof.
  assert (Hs : is_uint64 example_supply) by (vm_compute; split; discriminate).
  assert (Hbits : 32 <= @Height_bits example_platform) by (vm_compute; discriminate).
  split; [exact Hs|]. split; [exact Hbits|].
  pose proof (@pool_ledger example_platform 5 example_stats 1 2082536
                example_supply Hs Hbits) as Hledger.
  fold example_net in Hledger.
  destruct (loop 5 Block.default example_net) as [[log b] net] eqn:Hrun.
  destruct (Hledger 1%nat (PoolStats.new "B" 0.125) eq_refl) as (p & Hp & Hr & Hb).
  exists p. split; [exact Hp|].
  assert (Hlog : log = fst (fst (loop 5 Block.default example_net)))
    by (rewrite Hrun; reflexivity).
  split.
  - rewrite Hr, Hlog. vm_compute. reflexivity.
  - rewrite Hb, Hlog. vm_compute. reflexivity.
Defined.

(** X4. A run never changes the number of pools, their names or their hash
    rates: at every point they are those configured in the [PoolStats]. *)
Theorem run_keeps_pool_identity `{Platform}
  (fuel : nat) (stats : list PoolStats.PoolStats)
  (seed startingHeight startingSupply : Z) :
  let '(_, _, net) :=
    loop fuel Block.default (initial stats seed startingHeight startingSupply) in
  map Pool.name_ (pools_ net) = map PoolStats.name_ stats
  /\ map Pool.getHashrate (pools_ net) = map PoolStats.hashrate_ stats
  /\ List.length (pools_ net) = List.length stats.
Proof.
  pose proof (loop_identity fuel Block.default
                (initial stats seed startingHeight startingSupply)) as Hid.
  destruct (loop fuel Block.default (initial stats seed startingHeight startingSupply))
    as [[log b] net].
  unfold initial, new in Hid. cbn [pools_] in Hid.
  rewrite !map_map in Hid. cbn [PoolStats.getPool Pool.new Pool.name_ Pool.hashrate_] in Hid.
  destruct Hid as [Hn Hh].
  split; [exact Hn|]. split; [exact Hh|].
  rewrite <- (length_map Pool.name_), Hn. apply length_map.
Qed.

(** ** Height and engine along a run *)

Section RunHeight.
Context `{Platform}.

Lemma loop_heights (fuel : nat) :
  forall (b : Block.Block) (net : Network),
    0 <= height_ net < 2 ^ Height_bits ->
    let '(log, _, netf) := loop fuel b net in
    height_ netf = wrapH (height_ net + Z.of_nat (List.length log))
    /\ (forall (k : nat) (x : Block.Block),
          nth_error log k = Some x ->
          Block.height_ x = wrapH (height_ net + Z.of_nat k + 1)).
Proof.
  induction fuel as [|fuel IH]; intros b net Hh.
  - cbn [loop List.length]. split.
    + unfold wrapH, wrap. rewrite Z.add_0_r, Z.mod_small; [reflexivity|exact Hh].
    + intros [|k] x Hx; discriminate.
  - destruct (Z.le_gt_cases (Block.getReward b) tailEmission) as [Hb|Hb].
    + rewrite loop_exited by exact Hb. cbn [List.length]. split.
      * unfold wrapH, wrap. rewrite Z.add_0_r, Z.mod_small; [reflexivity|exact Hh].
      * intros [|k] x Hx; discriminate.
    + rewrite loop_step by lia.
      assert (Hstep : height_ (snd (mineBlock net)) = wrapH (height_ net + 1)
                      /\ Block.height_ (fst (mineBlock net)) = wrapH (height_ net + 1))
        by (rewrite mineBlock_eq; split; reflexivity).
      destruct Hstep as [Hnet Hblk].
      specialize (IH (fst (mineBlock net)) (snd (mineBlock net))).
      destruct (loop fuel (fst (mineBlock net)) (snd (mineBlock net)))
        as [[log bf] netf].
      destruct IH as [IHh IHk].
      { rewrite Hnet. unfold wrapH, wrap. apply Z.mod_pos_bound. lia. }
      cbv beta iota. split.
      * rewrite IHh, Hnet. unfold wrapH, wrap.
        rewrite Zplus_mod_idemp_l. f_equal. cbn [List.length]. lia.
      * intros [|k] x Hx.
        -- cbn in Hx. injection Hx as <-. rewrite Hblk. f_equal. lia.
        -- cbn [nth_error] in Hx. rewrite (IHk k x Hx), Hnet.
           unfold wrapH, wrap. rewrite <- Z.add_assoc, Zplus_mod_idemp_l.
           f_equal. lia.
Qed.

Lemma loop_draws (fuel : nat) :
  forall (b : Block.Block) (net : Network),
    let '(log, _, netf) := loop fuel b net in
    rng_ netf = draws (List.length log) (rng_ net).
Proof.
  induction fuel as [|fuel IH]; intros b net; [reflexivity|].
  destruct (Z.le_gt_cases (Block.getReward b) tailEmission) as [Hb|Hb].
  - rewrite loop_exited by exact Hb. reflexivity.
  - rewrite loop_step by lia.
    assert (Hstep : rng_ (snd (mineBlock net)) = snd (uniform_real (rng_ net)))
      by (rewrite mineBlock_eq; reflexivity).
    specialize (IH (fst (mineBlock net)) (snd (mineBlock net))).
    destruct (loop fuel (fst (mineBlock net)) (snd (mineBlock net)))
      as [[log bf] netf].
    cbv beta iota. cbn [List.length draws]. rewrite IH, Hstep. reflexivity.
Qed.

End RunHeight.

(** X5. From a height that is a [Height] value, the height after a run is
    the starting height plus the number of blocks mined, reduced modulo
    [2^Height_bits]; the [k]-th block mined (from 0) carries the starting
    height plus [k + 1], reduced likewise; when the starting height plus the
    number of blocks stays below [2^Height_bits] nothing is reduced. *)
Theorem run_heights `{Platform} (fuel : nat) (net : Network)
  (Hh : 0 <= height_ net < 2 ^ Height_bits) :
  let '(log, _, netf) := loop fuel Block.default net in
  height_ netf = wrapH (height_ net + Z.of_nat (List.length log))
  /\ (forall (k : nat) (x : Block.Block),
        nth_error log k = Some x ->
        Block.height_ x = wrapH (height_ net + Z.of_nat k + 1))
  /\ (height_ net + Z.of_nat (List.length log) < 2 ^ Height_bits ->
      height_ netf = height_ net + Z.of_nat (List.length log)
      /\ forall (k : nat) (x : Block.Block),
           nth_error log k = Some x ->
           Block.height_ x = height_ net + Z.of_nat k + 1).
Proof.
  pose proof (loop_heights fuel Block.default net Hh) as Hl.
  destruct (loop fuel Block.default net) as [[log b] netf].
  destruct Hl as [Hnet Hblocks].
  split; [exact Hnet|]. split; [exact Hblocks|].
  intros Hroom. split.
  - rewrite Hnet. unfold wrapH, wrap. apply Z.mod_small. lia.
  - intros k x Hx. rewrite (Hblocks k x Hx).
    assert (Hk : (k < List.length log)%nat)
      by (apply nth_error_Some; rewrite Hx; discriminate).
    unfold wrapH, wrap. apply Z.mod_small. lia.
Qed.

Lemma run_heights_witness :
  0 <= height_ example_net < 2 ^ @Height_bits example_platform
  /\ height_ (snd (loop 5 Block.default example_net)) = 2082536 + 3.
Proof.
  assert (Hh : 0 <= height_ example_net < 2 ^ @Height_bits example_platform)
    by (vm_compute; split; [discriminate|reflexivity]).
  split; [exact Hh|].
  pose proof (run_heights 5 example_net Hh) as Hrun.
  destruct (loop 5 Block.default example_net) as [[log b] netf] eqn:Hloop.
  destruct Hrun as (Hnet & _ & _).
  assert (Hlog : log = fst (fst (loop 5 Block.default example_net)))
    by (rewrite Hloop; reflexivity).
  cbn [snd]. rewrite Hnet, Hlog. vm_compute. reflexivity.
Defined.

(** X6. A run draws exactly one random number per block mined: the engine
    after the run is the starting engine advanced by as many draws as the
    log has blocks. *)
Theorem run_draws_once_per_block `{Platform} (fuel : nat) (net : Network) :
  let '(log, _, netf) := loop fuel Block.default net in
  rng_ netf = draws (List.length log) (rng_ net).
Proof. apply loop_draws. Qed.

(** ** Samples *)

Lemma accumulate_all_nth (stats : list PoolStats.PoolStats) :
  forall pools : list Pool.Pool,
    List.length pools = List.length stats ->
    List.length (accumulate_all stats pools) = List.length stats
    /\ forall (i : nat) (st : PoolStats.PoolStats),
         nth_error stats i = Some st ->
         exists p : Pool.Pool,
           nth_error pools i = Some p
           /\ nth_error (accumulate_all stats pools) i
              = Some (PoolStats.accumulate p st).
Proof.
  induction stats as [|s stats IH]; intros pools Hlen.
  - split; [reflexivity|]. intros [|i] st Hst; discriminate.
  - destruct pools as [|p pools]; [discriminate|].
    cbn [List.length] in Hlen. injection Hlen as Hlen.
    destruct (IH pools Hlen) as [IHl IHn].
    cbn [accumulate_all List.length]. split; [rewrite IHl; reflexivity|].
    intros [|i] st Hst.
    + cbn in Hst. injection Hst as <-. exists p. split; reflexivity.
    + cbn [nth_error] in Hst |- *. apply IHn. exact Hst.
Qed.

Section RunSamples.
Context `{Platform}.

Lemma simulate_eq (fuel : nat) (stats : list PoolStats.PoolStats)
  (seed startingHeight startingSupply : Z) :
  simulateUntilTailEmission fuel stats seed startingHeight startingSupply
  = let r := loop fuel Block.default
               (initial stats seed startingHeight startingSupply) in
    if tailEmission <? Block.getReward (snd (fst r)) then None
    else Some (accumulate_all stats (pools_ (snd r))).
Proof.
  unfold simulateUntilTailEmission.
  destruct (loop fuel Block.default
              (initial stats seed startingHeight startingSupply)) as [[log b] net].
  reflexivity.
Qed.

Lemma loop_pool_count (fuel : nat) (stats : list PoolStats.PoolStats)
  (seed startingHeight startingSupply : Z) :
  List.length (pools_ (snd (loop fuel Block.default
                              (initial stats seed startingHeight startingSupply))))
  = List.length stats.
Proof.
  pose proof (loop_identity fuel Block.default
                (initial stats seed startingHeight startingSupply)) as Hid.
  destruct (loop fuel Block.default
              (initial stats seed startingHeight startingSupply)) as [[log b] net].
  destruct Hid as [Hn _]. cbn [snd].
  rewrite <- (length_map Pool.name_), Hn.
  unfold initial, new. cbn [pools_]. rewrite !length_map. reflexivity.
Qed.

(** With fuel beyond the bound of a run, [simulateUntilTailEmission]
    returns. *)
Lemma simulate_returns (fuel : nat) (stats : list PoolStats.PoolStats)
  (seed startingHeight startingSupply : Z) :
  is_uint64 startingSupply ->
  (S (Z.to_nat ((moneySupply - startingSupply) / (tailEmission + 1))) <= fuel)%nat ->
  exists result : list PoolStats.PoolStats,
    simulateUntilTailEmission fuel stats seed startingHeight startingSupply
    = Some result.
Proof.
  intros Hs Hfuel. rewrite simulate_eq. cbv zeta.
  set (net := initial stats seed startingHeight startingSupply).
  assert (Hexit : Block.getReward (snd (fst (loop fuel Block.default net)))
                  <= tailEmission).
  { apply loop_exits; [exact Hs|].
    unfold net, initial, new. cbn [supply_].
    assert (Hq : 0 <= (moneySupply - startingSupply) / (tailEmission + 1))
      by (apply Z.div_pos; unfold is_uint64, tailEmission in *; lia).
    pose proof (Z.mul_succ_div_gt (moneySupply - startingSupply)
                  (tailEmission + 1) ltac:(unfold tailEmission; lia)) as Hdiv.
    assert (Hf : (moneySupply - startingSupply) / (tailEmission + 1) + 1
                 <= Z.of_nat fuel) by lia.
    unfold tailEmission in *. nia. }
  destruct (Z.ltb_spec tailEmission
              (Block.getReward (snd (fst (loop fuel Block.default net)))));
    [lia|].
  eexists. reflexivity.
Qed.

End RunSamples.

(** X7. When [simulateUntilTailEmission] returns, it returns as many
    [PoolStats] as it was given, each with its name and hash rate kept, and
    with exactly one sample appended to its block counts (the final block
    count of the pool of the same index) and one to its block rewards (that
    pool's accrued reward divided by [xmrUnit]); earlier samples are kept. *)
Theorem simulate_appends_one_sample `{Platform}
  (fuel : nat) (stats result : list PoolStats.PoolStats)
  (seed startingHeight startingSupply : Z)
  (Hrun : simulateUntilTailEmission fuel stats seed startingHeight startingSupply
          = Some result) :
  let '(_, _, net) :=
    loop fuel Block.default (initial stats seed startingHeight startingSupply) in
  List.length result = List.length stats
  /\ forall (i : nat) (st : PoolStats.PoolStats),
       nth_error stats i = Some st ->
       exists (st' : PoolStats.PoolStats) (p : Pool.Pool),
         nth_error result i = Some st'
         /\ nth_error (pools_ net) i = Some p
         /\ PoolStats.name_ st' = PoolStats.name_ st
         /\ PoolStats.hashrate_ st' = PoolStats.hashrate_ st
         /\ StatsSet.values_ (PoolStats.blockCounts_ st')
            = StatsSet.values_ (PoolStats.blockCounts_ st)
              ++ [double_of_uint64 (Pool.getBlocks p)]
         /\ StatsSet.values_ (PoolStats.blockRewards_ st')
            = StatsSet.values_ (PoolStats.blockRewards_ st)
              ++ [(double_of_uint64 (Pool.getRewards p) / xmrUnit)%float].
Proof.
  rewrite simulate_eq in Hrun. cbv zeta in Hrun.
  pose proof (loop_pool_count fuel stats seed startingHeight startingSupply) as Hcount.
  destruct (loop fuel Block.default (initial stats seed startingHeight startingSupply))
    as [[log b] net].
  cbn [fst snd] in Hrun, Hcount.
  destruct (tailEmission <? Block.getReward b); [discriminate|].
  injection Hrun as <-.
  destruct (accumulate_all_nth stats (pools_ net) Hcount) as [Hlen Hnth].
  split; [exact Hlen|].
  intros i st Hst. destruct (Hnth i st Hst) as (p & Hp & Hacc).
  exists (PoolStats.accumulate p st), p.
  repeat split; assumption.
Qed.

Lemma simulate_appends_one_sample_witness :
  exists result : list PoolStats.PoolStats,
    @simulateUntilTailEmission example_platform 5 example_stats 1 2082536 example_supply
    = Some result
    /\ List.length result = 2%nat.
Proof.
  assert (Hrun : @simulateUntilTailEmission example_platform 5 example_stats 1
                   2082536 example_supply
                 = Some (accumulate_all example_stats
                           (pools_ (snd (loop 5 Block.default example_net)))))
    by (vm_compute; reflexivity).
  eexists. split; [exact Hrun|].
  pose proof (@simulate_appends_one_sample example_platform 5 example_stats _ 1
                2082536 example_supply Hrun) as Hone.
  fold example_net in Hone.
  destruct (loop 5 Block.default example_net) as [[log b] net].
  exact (proj1 Hone).
Defined.

Lemma main_loop_appends `{Platform} (fuel : nat) (seeds : list Z)
  (startingHeight startingSupply : Z) :
  forall stats result : list PoolStats.PoolStats,
    main_loop fuel stats seeds startingHeight startingSupply = Some result ->
    List.length result = List.length stats
    /\ forall (i : nat) (st : PoolStats.PoolStats),
         nth_error stats i = Some st ->
         exists (st' : PoolStats.PoolStats) (counts rewards : list float),
           nth_error result i = Some st'
           /\ PoolStats.name_ st' = PoolStats.name_ st
           /\ PoolStats.hashrate_ st' = PoolStats.hashrate_ st
           /\ StatsSet.values_ (PoolStats.blockCounts_ st')
              = StatsSet.values_ (PoolStats.blockCounts_ st) ++ counts
           /\ StatsSet.values_ (PoolStats.blockRewards_ st')
              = StatsSet.values_ (PoolStats.blockRewards_ st) ++ rewards
           /\ List.length counts = List.length seeds
           /\ List.length rewards = List.length seeds.
Proof.
  induction seeds as [|seed seeds IH]; intros stats result Hmain.
  - cbn in Hmain. injection Hmain as <-. split; [reflexivity|].
    intros i st Hst. exists st, [], [].
    rewrite !app_nil_r. repeat split; auto.
  - cbn [main_loop] in Hmain.
    destruct (simulateUntilTailEmission fuel stats seed startingHeight startingSupply)
      as [stats1|] eqn:Hsim; [|discriminate].
    rewrite simulate_eq in Hsim. cbv zeta in Hsim.
    pose proof (loop_pool_count fuel stats seed startingHeight startingSupply) as Hcount.
    destruct (tailEmission <? _) in Hsim; [discriminate|].
    injection Hsim as <-.
    destruct (accumulate_all_nth stats _ Hcount) as [Hlen1 Hnth1].
    destruct (IH _ result Hmain) as [Hlen Hnth].
    split; [rewrite Hlen; exact Hlen1|].
    intros i st Hst.
    destruct (Hnth1 i st Hst) as (p & _ & Hacc).
    destruct (Hnth i _ Hacc) as (st' & counts & rewards & Hr & Hn & Hh & Hc & Hw & Hlc & Hlw).
    exists st', (double_of_uint64 (Pool.getBlocks p) :: counts),
           ((double_of_uint64 (Pool.getRewards p) / xmrUnit)%float :: rewards).
    split; [exact Hr|]. split; [exact Hn|]. split; [exact Hh|].
    split; [rewrite Hc; cbn; rewrite <- app_assoc; reflexivity|].
    split; [rewrite Hw; cbn; rewrite <- app_assoc; reflexivity|].
    cbn [List.length]. split; congruence.
Qed.

(** X8. For a [uint64_t] starting supply and fuel beyond the bound of a
    run, the loop of [main] over any list of seeds completes, and each
    [StatsSet] of each [PoolStats] then holds its earlier samples followed
    by exactly one new sample per seed. *)
Theorem main_loop_one_sample_per_seed `{Platform}
  (fuel : nat) (stats : list PoolStats.PoolStats) (seeds : list Z)
  (startingHeight startingSupply : Z)
  (Hs : is_uint64 startingSupply)
  (Hfuel : (S (Z.to_nat ((moneySupply - startingSupply) / (tailEmission + 1)))
            <= fuel)%nat) :
  exists result : list PoolStats.PoolStats,
    main_loop fuel stats seeds startingHeight startingSupply = Some result
    /\ List.length result = List.length stats
    /\ forall (i : nat) (st : PoolStats.PoolStats),
         nth_error stats i = Some st ->
         exists (st' : PoolStats.PoolStats) (counts rewards : list float),
           nth_error result i = Some st'
           /\ PoolStats.name_ st' = PoolStats.name_ st
           /\ PoolStats.hashrate_ st' = PoolStats.hashrate_ st
           /\ StatsSet.values_ (PoolStats.blockCounts_ st')
              = StatsSet.values_ (PoolStats.blockCounts_ st) ++ counts
           /\ StatsSet.values_ (PoolStats.blockRewards_ st')
              = StatsSet.values_ (PoolStats.blockRewards_ st) ++ rewards
           /\ List.length counts = List.length seeds
           /\ List.length rewards = List.length seeds.
Proof.
  assert (Hsome : exists result : list PoolStats.PoolStats,
            main_loop fuel stats seeds startingHeight startingSupply = Some result).
  { revert stats. induction seeds as [|seed seeds IH]; intros stats.
    - exists stats. reflexivity.
    - destruct (simulate_returns fuel stats seed startingHeight startingSupply
                  Hs Hfuel) as [stats1 Hsim].
      destruct (IH stats1) as [result Hmain].
      exists result. cbn [main_loop]. rewrite Hsim. exact Hmain. }
  destruct Hsome as [result Hmain].
  exists result. split; [exact Hmain|].
  apply (main_loop_appends fuel seeds startingHeight startingSupply stats result Hmain).
Qed.

Lemma main_loop_one_sample_per_seed_witness :
  is_uint64 (moneySupply - tailEmission)
  /\ exists result : list PoolStats.PoolStats,
       @main_loop example_platform 1 example_stats [1; 2; 3] 2082536
         (moneySupply - tailEmission) = Some result
       /\ List.length result = 2%nat.
Proof.
  assert (Hs : is_uint64 (moneySupply - tailEmission))
    by (vm_compute; split; discriminate).
  assert (Hfuel : (S (Z.to_nat ((moneySupply - (moneySupply - tailEmission))
                                / (tailEmission + 1))) <= 1)%nat)
    by (vm_compute; constructor).
  split; [exact Hs|].
  destruct (@main_loop_one_sample_per_seed example_platform 1 example_stats
              [1; 2; 3] 2082536 (moneySupply - tailEmission) Hs Hfuel)
    as (result & Hmain & Hlen & _).
  exists result. split; [exact Hmain|exact Hlen].
Defined.

(** ** Order of the samples *)

Lemma Sigma_Rsum (f : R -> R) (l : list R) :
  StatsSet.Sigma f l = Rsum (map f l).
Proof.
  induction l as [|x l IH] using rev_ind; [reflexivity|].
  rewrite Sigma_snoc, IH, map_app. cbn [d_add exact map].
  unfold Rsum. rewrite fold_right_app. cbn [fold_right].
  generalize (map f l) as m. intros m.
  induction m as [|y m IHm]; cbn [fold_right]; [lra|].
  rewrite <- IHm. lra.
Qed.

Lemma Rsum_Permutation (l l' : list R) :
  Permutation l l' -> Rsum l = Rsum l'.
Proof.
  induction 1 as [|x l l' _ IH|x y l|l l' l'' _ IH1 _ IH2];
    unfold Rsum in *; cbn [fold_right]; lra.
Qed.

(** X9. In exact arithmetic the report does not depend on the order in
    which the samples were added; in binary64 it does: the samples
    [2^53, 1, 1] and [1, 1, 2^53] give different means. *)
Theorem printStats_order :
  (forall s s' : StatsSet.StatsSet R,
      Permutation (StatsSet.values_ s) (StatsSet.values_ s') ->
      StatsSet.printStats s = StatsSet.printStats s')
  /\ (Permutation (StatsSet.values_ big_first) (StatsSet.values_ big_last)
      /\ (fst (StatsSet.printStats big_first)
          =? fst (StatsSet.printStats big_last))%float = false).
Proof.
  split.
  - intros s s' Hperm. rewrite !printStats_eq. cbv zeta.
    set (l := StatsSet.values_ s) in *. set (l' := StatsSet.values_ s') in *.
    assert (Hlen : List.length l = List.length l') by (apply Permutation_length; exact Hperm).
    assert (Hmean : StatsSet.spec_mean l = StatsSet.spec_mean l').
    { unfold StatsSet.spec_mean. rewrite !Sigma_Rsum, !map_id, Hlen.
      rewrite (Rsum_Permutation l l' Hperm). reflexivity. }
    rewrite !Sigma_Rsum, Hmean, Hlen.
    assert (Hsq : Rsum (map (StatsSet.sq_dev l) l) = Rsum (map (StatsSet.sq_dev l') l')).
    { unfold StatsSet.sq_dev. rewrite Hmean.
      apply Rsum_Permutation. apply Permutation_map. exact Hperm. }
    rewrite Hsq. reflexivity.
  - split.
    + cbn [StatsSet.values_ big_first big_last].
      apply Permutation_trans with (l' := [1; 9007199254740992; 1]%float).
      * apply perm_swap.
      * apply perm_skip. apply perm_swap.
    + vm_compute. reflexivity.
Qed.

(** ** A pool holding the whole hash power *)

Lemma SFltb_SFleb (a b : SpecFloat.spec_float) :
  SpecFloat.SFltb a b = true -> SpecFloat.SFleb a b = true.
Proof.
  unfold SpecFloat.SFltb, SpecFloat.SFleb.
  destruct (SpecFloat.SFcompare a b) as [[| |]|]; try discriminate; reflexivity.
Qed.

Lemma float_ltb_leb (x y : float) :
  (x <? y)%float = true -> (x <=? y)%float = true.
Proof.
  rewrite FloatAxioms.ltb_spec, FloatAxioms.leb_spec. apply SFltb_SFleb.
Qed.

(** X10. When the pool vector holds a single pool of hash rate 1.0 and
    the draw is below 1, [mineBlock] awards the block to that pool: its
    block count and reward are updated, and no block goes to the residual
    share. *)
Theorem solo_pool_wins `{Platform} (net : Network) (p : Pool.Pool)
  (Hpools : pools_ net = [p])
  (Hrate : Pool.getHashrate p = 1%float)
  (Hdraw : (fst (uniform_real (rng_ net)) <? 1)%float = true) :
  let '(b, net') := mineBlock net in
  Block.minedBy_ b = Some 0%nat
  /\ pools_ net' = [Pool.addBlock b p].
Proof.
  rewrite mineBlock_eq. cbv zeta. rewrite Hpools. cbn [select].
  rewrite Hrate. change (0 + 1)%float with 1%float.
  rewrite (float_ltb_leb _ _ Hdraw). split; reflexivity.
Qed.

Lemma solo_pool_wins_witness :
  pools_ solo_net = [Pool.new "A" 1]
  /\ (fst (@uniform_real example_platform (rng_ solo_net)) <? 1)%float = true
  /\ Block.minedBy_ (fst (mineBlock solo_net)) = Some 0%nat.
Proof.
  assert (Hpools : pools_ solo_net = [Pool.new "A" 1]) by reflexivity.
  assert (Hdraw : (fst (@uniform_real example_platform (rng_ solo_net)) <? 1)%float
                  = true) by (vm_compute; reflexivity).
  split; [exact Hpools|]. split; [exact Hdraw|].
  pose proof (solo_pool_wins solo_net (Pool.new "A" 1) Hpools eq_refl Hdraw) as Hwin.
  destruct (mineBlock solo_net) as [b net'].
  exact (proj1 Hwin).
Defined.

(** ** No tracked pool *)

Lemma loop_no_pools `{Platform} (fuel : nat) :
  forall (b : Block.Block) (net : Network),
    pools_ net = [] ->
    let '(log, _, netf) := loop fuel b net in
    Forall (fun x => Block.minedBy_ x = None) log /\ pools_ netf = [].
Proof.
  induction fuel as [|fuel IH]; intros b net Hnil.
  - cbn [loop]. split; [constructor|exact Hnil].
  - destruct (Z.le_gt_cases (Block.getReward b) tailEmission) as [Hb|Hb].
    + rewrite loop_exited by exact Hb. split; [constructor|exact Hnil].
    + rewrite loop_step by lia.
      assert (Hstep : Block.minedBy_ (fst (mineBlock net)) = None
                      /\ pools_ (snd (mineBlock net)) = []).
      { rewrite mineBlock_eq. cbv zeta. rewrite Hnil. split; reflexivity. }
      destruct Hstep as [Hnone Hnil'].
      specialize (IH (fst (mineBlock net)) (snd (mineBlock net)) Hnil').
      destruct (loop fuel (fst (mineBlock net)) (snd (mineBlock net)))
        as [[log bf] netf].
      destruct IH as [Hall Hend].
      split; [constructor; assumption|exact Hend].
Qed.

(** X11. With no [PoolStats] given, a run still mines its blocks: after one
    iteration or more the first block has been mined, the rewards mined are
    those of a run with any tracked pools, every block goes to the residual
    share, the pool vector stays empty and nothing is awarded; from a
    [uint64_t] supply and with fuel beyond the bound of a run,
    [simulateUntilTailEmission] returns the empty list. *)
Theorem run_without_pools `{Platform} (fuel : nat)
  (seed startingHeight startingSupply : Z) :
  let '(log, _, net) :=
    loop fuel Block.default (initial [] seed startingHeight startingSupply) in
  Forall (fun x => Block.minedBy_ x = None) log
  /\ pools_ net = []
  /\ awarded log = 0
  /\ ((1 <= fuel)%nat ->
      exists rest : list Block.Block,
        log = fst (mineBlock (initial [] seed startingHeight startingSupply)) :: rest)
  /\ (forall stats : list PoolStats.PoolStats,
        map Block.getReward log
        = map Block.getReward
            (fst (fst (loop fuel Block.default
                         (initial stats seed startingHeight startingSupply)))))
  /\ (is_uint64 startingSupply ->
      (S (Z.to_nat ((moneySupply - startingSupply) / (tailEmission + 1)))
       <= fuel)%nat ->
      simulateUntilTailEmission fuel [] seed startingHeight startingSupply
      = Some []).
Proof.
  set (net0 := initial [] seed startingHeight startingSupply).
  pose proof (loop_no_pools fuel Block.default net0 eq_refl) as Hloop.
  pose proof (simulate_eq fuel [] seed startingHeight startingSupply) as Hsim.
  cbv zeta in Hsim. fold net0 in Hsim.
  assert (Hfirst : (1 <= fuel)%nat ->
            exists rest : list Block.Block,
              fst (fst (loop fuel Block.default net0)) = fst (mineBlock net0) :: rest).
  { intros Hfuel. destruct fuel as [|fuel]; [lia|]. apply loop_first_block. }
  assert (Hagree : forall stats : list PoolStats.PoolStats,
            map Block.getReward (fst (fst (loop fuel Block.default net0)))
            = map Block.getReward
                (fst (fst (loop fuel Block.default
                             (initial stats seed startingHeight startingSupply))))).
  { intros stats.
    pose proof (loop_rewards_agree _ _ fuel Block.default net0 Block.default
                  (initial stats seed startingHeight startingSupply)
                  eq_refl eq_refl) as Ha.
    destruct (loop fuel Block.default net0) as [[log1 b1] net1].
    destruct (loop fuel Block.default
                (initial stats seed startingHeight startingSupply))
      as [[log2 b2] net2].
    exact (proj1 Ha). }
  assert (Hexit : is_uint64 startingSupply ->
            (S (Z.to_nat ((moneySupply - startingSupply) / (tailEmission + 1)))
             <= fuel)%nat ->
            Block.getReward (snd (fst (loop fuel Block.default net0)))
            <= tailEmission).
  { intros Hs Hfuel. apply loop_exits_at_bound; assumption. }
  destruct (loop fuel Block.default net0) as [[log b] net].
  cbn [fst snd] in Hsim, Hfirst, Hagree, Hexit.
  destruct Hloop as [Hall Hnil].
  split; [exact Hall|]. split; [exact Hnil|]. split; [|split; [|split]].
  - clear Hsim Hfirst Hagree. induction Hall as [|x log Hx _ IH]; [reflexivity|].
    rewrite awarded_cons, Hx. exact IH.
  - exact Hfirst.
  - exact Hagree.
  - intros Hs Hfuel. rewrite Hsim. specialize (Hexit Hs Hfuel).
    destruct (Z.ltb_spec tailEmission (Block.getReward b)); [lia|].
    rewrite Hnil. reflexivity.
Qed.
